(** * Utilisation-rate table: the record transformer of [table-script.tsx]

    A shallow embedding of the data transformation of [src/table-script.tsx]
    ([formatPercentage], [parseSafeFloat], [calculateNetEarningsPrevMonth]
    and the [filter]/[map]/[filter] pipeline that builds [tableData]),
    together with the part of the ECMAScript run-time it relies on:

    - JavaScript strings are sequences of code units; the model keeps the
      code units below 256, i.e. Rocq's [string];
    - JavaScript numbers are IEEE 754 binary64 values, modelled by the
      axiom-free [spec_float] of the Standard Library with [prec = 53] and
      [emax = 1024], all arithmetic rounding to nearest, ties to even;
    - [null] and [undefined] (and an absent property) are both [None]. *)

From Stdlib Require Import ZArith List String Ascii Bool Lia QArith Qabs.
From Stdlib Require Import Floats.SpecFloat.
Import ListNotations.

Local Open Scope string_scope.
Local Open Scope Z_scope.

(** ** ECMAScript numbers *)

Module JS.

Definition prec : Z := 53.
Definition emax : Z := 1024.

(** A Number value. *)
Definition number : Type := spec_float.

Definition NaN : number := S754_nan.
Definition zero : number := S754_zero false.

(** [isNaN] on a value that already is a Number. *)
Definition isNaN (x : number) : bool :=
  match x with
  | S754_nan => true
  | _ => false
  end.

(** The Number nearest to the integer [n] (the sign of a zero is [+]). *)
Definition of_Z (n : Z) : number := binary_normalize prec emax n 0 false.

(** The Number nearest to [(-1)^s * n / d], for positive [n] and [d]. *)
Definition of_ratio (s : bool) (n d : positive) : number :=
  SFdiv prec emax (S754_finite s n 0) (S754_finite false d 0).

(** The Number nearest to [(-1)^s * n * 10^e]; a zero keeps its sign. *)
Definition of_decimal (s : bool) (n : Z) (e : Z) : number :=
  match n with
  | Zpos p =>
      if 0 <=? e
      then binary_normalize prec emax (if s then - (n * 10 ^ e) else n * 10 ^ e) 0 s
      else of_ratio s p (Z.to_pos (10 ^ (- e)))
  | _ => S754_zero s
  end.

(** The operators [*] and [-] of the language. *)
Definition mul (x y : number) : number := SFmul prec emax x y.
Definition sub (x y : number) : number := SFsub prec emax x y.

(** The mathematical value of a finite Number, [None] for NaN and the
    infinities. *)
Definition toQ (x : number) : option Q :=
  match x with
  | S754_zero _ => Some 0%Q
  | S754_finite s m e =>
      let v := if 0 <=? e
               then inject_Z (Zpos m * 2 ^ e)
               else Qmake (Zpos m) (Z.to_pos (2 ^ (- e))) in
      Some (Qred (if s then Qopp v else v))
  | _ => None
  end.

(** *** Strings *)

(** [WhiteSpace] and [LineTerminator] code units below 256: TAB, LF, VT,
    FF, CR, SP and NBSP. *)
Definition isWhiteSpace (c : ascii) : bool :=
  existsb (N.eqb (N_of_ascii c)) [9; 10; 11; 12; 13; 32; 160]%N.

Fixpoint trimStart (s : string) : string :=
  match s with
  | String c r => if isWhiteSpace c then trimStart r else s
  | EmptyString => EmptyString
  end.

Fixpoint trimEnd (s : string) : string :=
  match s with
  | String c r =>
      match trimEnd r with
      | EmptyString => if isWhiteSpace c then EmptyString else String c EmptyString
      | r' => String c r'
      end
  | EmptyString => EmptyString
  end.

(** [String.prototype.trim]. *)
Definition trim (s : string) : string := trimEnd (trimStart s).

Definition digitValue (c : ascii) : option Z :=
  let n := Z.of_N (N_of_ascii c) in
  if (48 <=? n) && (n <=? 57) then Some (n - 48) else None.

Definition digitChar (d : Z) : ascii := ascii_of_N (Z.to_N (48 + d)).

(** The longest [DecimalDigits] prefix of [s], read onto the accumulator
    [acc]: the value read, the number of digits, and what follows. *)
Fixpoint decimalDigits (s : string) (acc : Z) (len : Z) : Z * Z * string :=
  match s with
  | String c r =>
      match digitValue c with
      | Some d => decimalDigits r (10 * acc + d) (len + 1)
      | None => (acc, len, s)
      end
  | EmptyString => (acc, len, s)
  end.

(** The value of the [ExponentPart] that [s] starts with, [0] when it
    starts with none (an [e] with no digit after it is not one). *)
Definition exponentPart (s : string) : Z :=
  match s with
  | String c r =>
      if (Ascii.eqb c "e" || Ascii.eqb c "E")%bool then
        let '(neg, r') :=
          match r with
          | String "+"%char r1 => (false, r1)
          | String "-"%char r1 => (true, r1)
          | _ => (false, r)
          end in
        let '(v, n, _) := decimalDigits r' 0 0 in
        if n =? 0 then 0 else if neg then - v else v
      else 0
  | EmptyString => 0
  end.

(** The Number value of the longest prefix of [s] that is a
    [StrUnsignedDecimalLiteral], negated when [neg]; NaN when there is no
    such prefix.  The mathematical value of the literal is rounded once, to
    the nearest Number. *)
Definition strUnsignedDecimalLiteral (neg : bool) (s : string) : number :=
  if String.prefix "Infinity" s then S754_infinity neg
  else
    let '(i, ni, r1) := decimalDigits s 0 0 in
    match r1 with
    | String "."%char r2 =>
        let '(m, nf, r3) := decimalDigits r2 i 0 in
        if ((ni =? 0) && (nf =? 0))%bool then NaN
        else of_decimal neg m (exponentPart r3 - nf)
    | _ => if ni =? 0 then NaN else of_decimal neg i (exponentPart r1)
    end.

(** The global function [parseFloat] on a string. *)
Definition parseFloat (s : string) : number :=
  match trimStart s with
  | String "+"%char r => strUnsignedDecimalLiteral false r
  | String "-"%char r => strUnsignedDecimalLiteral true r
  | t => strUnsignedDecimalLiteral false t
  end.

(** *** Numbers to strings *)

Fixpoint digitsFuel (fuel : nat) (n : Z) (acc : string) : string :=
  match fuel with
  | O => acc
  | S k =>
      let acc' := String (digitChar (n mod 10)) acc in
      if n / 10 =? 0 then acc' else digitsFuel k (n / 10) acc'
  end.

(** The decimal representation of the integer [n >= 0], most significant
    digit first, ["0"] for zero. *)
Definition decimalString (n : Z) : string :=
  digitsFuel (S (Z.to_nat (Z.log2 n))) n "".

Fixpoint zeros (k : nat) : string :=
  match k with
  | O => ""
  | S k' => String "0"%char (zeros k')
  end.

(** Is [m * 2^e >= 10^21]? *)
Definition geTenPow21 (m : positive) (e : Z) : bool :=
  if 0 <=? e then 10 ^ 21 <=? Zpos m * 2 ^ e
  else 10 ^ 21 * 2 ^ (- e) <=? Zpos m.

(** The integer [n] for which [n / 10^f - m * 2^e] is as close to zero as
    possible, the larger one when there are two. *)
Definition nearestScaled (m : positive) (e : Z) (f : nat) : Z :=
  if 0 <=? e then Zpos m * 2 ^ e * 10 ^ Z.of_nat f
  else (2 * Zpos m * 10 ^ Z.of_nat f + 2 ^ (- e)) / 2 ^ (1 - e).

(** The digits of [n] with a decimal point before the last [f] of them,
    padded with zeros on the left to at least [f + 1] digits. *)
Definition fixedNotation (n : Z) (f : nat) : string :=
  let m := decimalString n in
  match f with
  | O => m
  | S _ =>
      let k := String.length m in
      let m' := if (k <=? f)%nat then zeros (f + 1 - k) ++ m else m in
      let k' := String.length m' in
      substring 0 (k' - f) m' ++ "." ++ substring (k' - f) f m'
  end.

(** Does the integer [c] round to the Number [m * 2^e] (with [e >= 0] and
    [m] a 53-bit mantissa)?  The bounds are the midpoints to the two
    neighbouring Numbers, attained only by an even mantissa. *)
Definition roundsTo (m : positive) (e : Z) (c : Z) : bool :=
  let x4 := 4 * (Zpos m * 2 ^ e) in
  let lo4 := x4 - (if Zpos m =? 2 ^ 52 then 2 ^ e else 2 ^ (e + 1)) in
  let hi4 := x4 + 2 ^ (e + 1) in
  if Z.even (Zpos m)
  then (lo4 <=? 4 * c) && (4 * c <=? hi4)
  else (lo4 <? 4 * c) && (4 * c <? hi4).

(** The shortest decimal [s * 10^p] that rounds to the integer-valued
    Number [x = m * 2^e]: the largest [p <= fuel] for which a multiple of
    [10^p] next to [x] rounds to it, and of two such multiples the closer
    one, the one with even [s] on a tie. *)
Fixpoint shortestDecimal (fuel : nat) (m : positive) (e : Z) : Z * Z :=
  let x := Zpos m * 2 ^ e in
  match fuel with
  | O => (x, 0)
  | S fuel' =>
      let p := Z.of_nat fuel in
      let q := 10 ^ p in
      let lo := x / q * q in
      let hi := lo + q in
      let okLo := (0 <? lo) && roundsTo m e lo in
      let okHi := roundsTo m e hi in
      if okLo && okHi then
        match (x - lo) ?= (hi - x) with
        | Lt => (lo / q, p)
        | Gt => (hi / q, p)
        | Eq => if Z.even (lo / q) then (lo / q, p) else (hi / q, p)
        end
      else if okLo then (lo / q, p)
      else if okHi then (hi / q, p)
      else shortestDecimal fuel' m e
  end.

(** [Number::toString] of the finite [m * 2^e >= 10^21]: its shortest
    round-tripping digits in exponential notation. *)
Definition toStringLarge (m : positive) (e : Z) : string :=
  let x := Zpos m * 2 ^ e in
  let '(s, p) := shortestDecimal (String.length (decimalString x)) m e in
  let d := decimalString s in
  let n := Z.of_nat (String.length d) + p in
  match d with
  | String c EmptyString => d ++ "e+" ++ decimalString (n - 1)
  | String c r => String c ("." ++ r) ++ "e+" ++ decimalString (n - 1)
  | EmptyString => d
  end.

(** [Number.prototype.toFixed] with [f] fraction digits ([0 <= f <= 100]
    in the language; the callers use [0] and [2]). *)
Definition toFixed (x : number) (f : nat) : string :=
  match x with
  | S754_nan => "NaN"
  | S754_infinity s => if s then "-Infinity" else "Infinity"
  | S754_zero _ => fixedNotation 0 f
  | S754_finite s m e =>
      (if s then "-" else "") ++
      (if geTenPow21 m e then toStringLarge m e
       else fixedNotation (nearestScaled m e f) f)
  end.

End JS.

Import JS.

(** ** Values that may be absent *)

(** Optional chaining [o?.f], for a property [f] that may itself be
    absent. *)
Definition chain {A B : Type} (o : option A) (f : A -> option B) : option B :=
  match o with
  | Some a => f a
  | None => None
  end.

Notation "o ?. f" := (chain o f) (at level 45, left associativity).

(** [a || b] on two values that are objects when present. *)
Definition orElse {A : Type} (a b : option A) : option A :=
  match a with
  | Some _ => a
  | None => b
  end.

(** [v === s] for a string literal [s]. *)
Definition strictEq (v : option string) (s : string) : bool :=
  match v with
  | Some v' => String.eqb v' s
  | None => false
  end.

(** Truthiness of a string that may be absent: [null], [undefined] and the
    empty string are falsy. *)
Definition truthy (v : option string) : bool :=
  match v with
  | None | Some EmptyString => false
  | Some _ => true
  end.

(** The elements that are not [null], in order. *)
Fixpoint nonNull {A : Type} (l : list (option A)) : list A :=
  match l with
  | [] => []
  | Some a :: r => a :: nonNull r
  | None :: r => nonNull r
  end.

(** ** The data model ([types.ts], as the script uses it) *)

Record MonthlyFinancialEntry : Type := {
  month : option string;
  costs : option string
}.

Record UtilisationEntry : Type := {
  utilisationRate : option string
}.

Record WorkforceUtilisation : Type := {
  utilisationRateLastTwelveMonths : option string;
  utilisationRateYearToDate : option string;
  lastThreeMonthsIndividually : option (list UtilisationEntry)
}.

Module StatusAggregation.

Record t : Type := {
  status : option string;
  monthlySalary : option string
}.

End StatusAggregation.

Module CostsByMonth.

Record t : Type := {
  potentialEarningsByMonth : option (list MonthlyFinancialEntry);
  costsByMonth : option (list MonthlyFinancialEntry)
}.

End CostsByMonth.

(** [Employee | ExternalEmployee]: the script reads both through the same
    properties. *)
Module Person.

Record t : Type := {
  name : option string;
  status : option string;
  statusAggregation : option StatusAggregation.t;
  workforceUtilisation : option WorkforceUtilisation;
  costsByMonth : option CostsByMonth.t
}.

End Person.

Record SourceDataType : Type := {
  employees : option Person.t;
  externals : option Person.t
}.

Record TableDataType : Type := {
  person : string;
  past12Months : string;
  y2d : string;
  june : string;
  july : string;
  august : string;
  netEarningsPrevMonth : string
}.

(** ** The helpers of the script *)

Definition formatPercentage (value : option string) : string :=
  match value with
  | None => "N/A"
  | Some v =>
      let numValue := parseFloat v in
      if isNaN numValue then "-"
      else toFixed (mul numValue (of_Z 100)) 0 ++ "%"
  end.

Definition parseSafeFloat (value : option string) : number :=
  match value with
  | None => zero
  | Some v =>
      if (String.eqb v "null" || String.eqb (trim v) "")%bool then zero
      else
        let num := parseFloat v in
        if isNaN num then zero else num
  end.

(** ** The previous month's net earnings *)

(** The array the earnings are read from: [potentialEarningsByMonth] when
    the person has it, else [costsByMonth], else the empty array. *)
Definition earningsDataArray (personData : option Person.t)
  : list MonthlyFinancialEntry :=
  let costsByMonthData := personData ?. Person.costsByMonth in
  match costsByMonthData ?. CostsByMonth.potentialEarningsByMonth with
  | Some a => a
  | None =>
      match costsByMonthData ?. CostsByMonth.costsByMonth with
      | Some a => a
      | None => []
      end
  end.

Definition monthlySalary (personData : option Person.t) : number :=
  parseSafeFloat
    (personData ?. Person.statusAggregation ?. StatusAggregation.monthlySalary).

(** [earningsDataArray[earningsDataArray.length - 1]]. *)
Definition latestDataMonthEntry (a : list MonthlyFinancialEntry)
  : option MonthlyFinancialEntry :=
  nth_error a (List.length a - 1).

(** The earnings of the month labelled [previousMonthFormatted]: the costs
    of the first entry with that month, when they are truthy. *)
Definition earningsPrevMonth (a : list MonthlyFinancialEntry)
  (previousMonthFormatted : string) : number :=
  match find (fun entry => strictEq (month entry) previousMonthFormatted) a with
  | Some prevMonthEntry =>
      match costs prevMonthEntry with
      | Some c => if truthy (Some c) then parseFloat c else zero
      | None => zero
      end
  | None => zero
  end.

Section Transformer.

(** The dayjs library: [dayjsPreviousMonth m] stands for
    [dayjs(m).subtract(1, "month").format("YYYY-MM")]. *)
Variable dayjsPreviousMonth : string -> string.

Definition calculateNetEarningsPrevMonth (personData : option Person.t)
  : string :=
  let a := earningsDataArray personData in
  let monthlySalary := monthlySalary personData in
  if (List.length a =? 0)%nat then "- EUR"
  else
    match latestDataMonthEntry a with
    | None => "- EUR"
    | Some latest =>
        match month latest with
        | Some m =>
            if truthy (Some m) then
              let previousMonthFormatted := dayjsPreviousMonth m in
              let netEarnings :=
                sub (earningsPrevMonth a previousMonthFormatted) monthlySalary in
              toFixed netEarnings 2 ++ " EUR"
            else "- EUR"
        | None => "- EUR"
        end
    end.

(** ** The rows of the table *)

(** [dataRow.employees || dataRow.externals]. *)
Definition personDataOf (dataRow : SourceDataType) : option Person.t :=
  orElse (employees dataRow) (externals dataRow).

(** The callback of the first [filter]. *)
Definition hasPerson (dataRow : SourceDataType) : bool :=
  match personDataOf dataRow with
  | Some _ => true
  | None => false
  end.

Definition isActive (personData : option Person.t) : bool :=
  (strictEq (personData ?. Person.statusAggregation ?. StatusAggregation.status)
     "active"
   || strictEq (personData ?. Person.status) "active")%bool.

(** [lastThreeMonths[i]?.utilisationRate]. *)
Definition rateAt (lastThreeMonths : list UtilisationEntry) (i : nat)
  : option string :=
  nth_error lastThreeMonths i ?. utilisationRate.

(** [personData?.workforceUtilisation?.lastThreeMonthsIndividually || []]. *)
Definition lastThreeMonths (personData : option Person.t)
  : list UtilisationEntry :=
  match personData ?. Person.workforceUtilisation ?. lastThreeMonthsIndividually with
  | Some l => l
  | None => []
  end.

(** The row built for an active person. *)
Definition buildRow (personData : option Person.t) : TableDataType :=
  let personName :=
    match personData ?. Person.name with
    | Some n => n
    | None => ""
    end in
  let wu := personData ?. Person.workforceUtilisation in
  {| person := personName;
     past12Months := formatPercentage (wu ?. utilisationRateLastTwelveMonths);
     y2d := formatPercentage (wu ?. utilisationRateYearToDate);
     june := formatPercentage (rateAt (lastThreeMonths personData) 2);
     july := formatPercentage (rateAt (lastThreeMonths personData) 1);
     august := formatPercentage (rateAt (lastThreeMonths personData) 0);
     netEarningsPrevMonth := calculateNetEarningsPrevMonth personData |}.

(** The callback of [map]: [null] for a person that is not active. *)
Definition tableRow (dataRow : SourceDataType) : option TableDataType :=
  let personData := personDataOf dataRow in
  if negb (isActive personData) then None
  else Some (buildRow personData).

Definition tableData (sourceData : list SourceDataType) : list TableDataType :=
  nonNull (map tableRow (filter hasPerson sourceData)).

End Transformer.

(** ** The month before a month label *)

(** [n] in decimal, padded with zeros on the left to [width] digits. *)
Definition padStart (width : nat) (n : Z) : string :=
  let d := decimalString n in
  zeros (width - String.length d) ++ d.

(** The label ["YYYY-MM"] of month [m] of year [y]. *)
Definition monthLabel (y m : Z) : string :=
  (if y <? 0 then "-" ++ padStart 4 (- y) else padStart 4 y) ++ "-" ++ padStart 2 m.

(** The year and the month of a label ["YYYY-MM"]: four digits, a hyphen,
    two digits that number a month. *)
Definition parseMonthLabel (s : string) : option (Z * Z) :=
  let '(y, ny, r) := decimalDigits s 0 0 in
  match r with
  | String "-"%char r' =>
      let '(m, nm, r'') := decimalDigits r' 0 0 in
      if ((ny =? 4) && (nm =? 2) && String.eqb r'' "" && (1 <=? m) && (m <=? 12))%bool
      then Some (y, m)
      else None
  | _ => None
  end.

(** Modelled from the spec: the dayjs library, whose parser, [subtract] and
    [format] the script calls, is not part of the sources.  Following the
    spec, the month of a label ["YYYY-MM"] is moved back by exactly one
    calendar month, December of the year before coming before January,
    and written in the same format; what is not such a label is an invalid
    date, which dayjs formats as ["Invalid Date"]. *)
Definition previousMonthLabel (label : string) : string :=
  match parseMonthLabel label with
  | Some (y, m) => if m =? 1 then monthLabel (y - 1) 12 else monthLabel y (m - 1)
  | None => "Invalid Date"
  end.

(** The script with the month arithmetic of the spec in the place of
    dayjs. *)
Definition netEarningsPrevMonthOf : option Person.t -> string :=
  calculateNetEarningsPrevMonth previousMonthLabel.

Definition tableDataOf : list SourceDataType -> list TableDataType :=
  tableData previousMonthLabel.

(** ** The starter version of the script *)

(** The second script of the file: the same selection of the active
    persons, every column but [person] still a placeholder, and a [may]
    column where the finished script has [august]. *)
Module Starter.

Record TableDataType : Type := {
  person : string;
  past12Months : string;
  y2d : string;
  may : string;
  june : string;
  july : string;
  netEarningsPrevMonth : string
}.

(** The callback of [map]. *)
Definition tableRow (dataRow : SourceDataType) : option TableDataType :=
  let personData := orElse (employees dataRow) (externals dataRow) in
  let isActive :=
    (strictEq (personData ?. Person.statusAggregation ?. StatusAggregation.status)
       "active"
     || strictEq (personData ?. Person.status) "active")%bool in
  if negb isActive then None
  else
    let personName :=
      match personData ?. Person.name with
      | Some n => n
      | None => ""
      end in
    Some {| person := personName;
            past12Months := "past12Months placeholder";
            y2d := "y2d placeholder";
            may := "may placeholder";
            june := "june placeholder";
            july := "july placeholder";
            netEarningsPrevMonth := "netEarningsPrevMonth placeholder" |}.

Definition tableData (sourceData : list SourceDataType) : list TableDataType :=
  nonNull
    (map tableRow
       (filter (fun dataRow =>
                  match orElse (employees dataRow) (externals dataRow) with
                  | Some _ => true
                  | None => false
                  end)
               sourceData)).

End Starter.

(** ** Sample data *)

Definition entry (m c : string) : MonthlyFinancialEntry :=
  {| month := Some m; costs := Some c |}.

(** A person with the given statuses, utilisation rates of the last three
    months, earnings series and salary. *)
Definition samplePerson (nestedStatus topStatus : option string)
  (rates : list string) (series : list MonthlyFinancialEntry)
  (salary : option string) : Person.t :=
  {| Person.name := Some "Ada";
     Person.status := topStatus;
     Person.statusAggregation :=
       Some {| StatusAggregation.status := nestedStatus;
               StatusAggregation.monthlySalary := salary |};
     Person.workforceUtilisation :=
       Some {| utilisationRateLastTwelveMonths := Some "0.8534";
               utilisationRateYearToDate := None;
               lastThreeMonthsIndividually :=
                 Some (map (fun r => {| utilisationRate := Some r |}) rates) |};
     Person.costsByMonth :=
       Some {| CostsByMonth.potentialEarningsByMonth := Some series;
               CostsByMonth.costsByMonth := None |} |}.

(** A series that ends in June 2024, and a salary of [10^21]. *)
Definition hugeSalaryPerson : Person.t :=
  samplePerson (Some "active") None [] [entry "2024-06" "1200"] (Some "1e21").

(** The series of the spec's example with the costs of May recorded as the
    string ["null"]. *)
Definition nullCostsSeries : list MonthlyFinancialEntry :=
  [entry "2024-05" "null"; entry "2024-06" "1200"].

(** The series of the spec's example: May and June 2024. *)
Definition exampleSeries : list MonthlyFinancialEntry :=
  [entry "2024-05" "1000"; entry "2024-06" "1200"].

(** The same series with April in the place of May: no entry for the
    month before the last one. *)
Definition gapSeries : list MonthlyFinancialEntry :=
  [entry "2024-04" "1000"; entry "2024-06" "1200"].

(** The person of the spec's examples: active, with the rates 0.9, 0.8 and
    0.7 of the last three months, newest first, and a salary of 800. *)
Definition examplePerson : Person.t :=
  samplePerson (Some "active") None ["0.9"; "0.8"; "0.7"] exampleSeries (Some "800").

(** A person whose nested status is not ["active"] while the top-level
    status is. *)
Definition topLevelActivePerson : Person.t :=
  samplePerson (Some "inactive") (Some "active") ["0.9"; "0.8"; "0.7"]
    exampleSeries (Some "800").

(** Another person, not active. *)
Definition inactivePerson : Person.t :=
  samplePerson None None [] [] None.

(** ** Notions used to state the properties *)

Definition isDigit (c : ascii) : bool :=
  match digitValue c with
  | Some _ => true
  | None => false
  end.

Fixpoint allDigits (s : string) : bool :=
  match s with
  | String c r => isDigit c && allDigits r
  | EmptyString => true
  end.

(** The number that the digits [s] denote when read after [acc]. *)
Fixpoint digitsValue (s : string) (acc : Z) : Z :=
  match s with
  | String c r =>
      match digitValue c with
      | Some d => digitsValue r (10 * acc + d)
      | None => acc
      end
  | EmptyString => acc
  end.

(** A numeral with [f] fraction digits that denotes [n / 10^f], negated
    when [neg]: an optional minus sign, at least one digit, a point and
    exactly [f] digits. *)
Definition fixedNumeral (s : string) (neg : bool) (n : Z) (f : nat) : Prop :=
  exists a b : string,
    s = (if neg then "-" else "") ++ a ++ "." ++ b
    /\ a <> "" /\ allDigits a = true /\ allDigits b = true
    /\ String.length b = f /\ digitsValue (a ++ b) 0 = n.

(** A numeral without fraction digits that denotes the integer [n],
    negated when [neg]. *)
Definition integerNumeral (s : string) (neg : bool) (n : Z) : Prop :=
  exists d : string,
    s = (if neg then "-" else "") ++ d
    /\ d <> "" /\ allDigits d = true /\ digitsValue d 0 = n.

(** A numeral in exponential notation that denotes [s * 10^p], negated
    when [neg]: an optional minus sign, the first digit of [s], its further
    digits (if any) after a point, ["e+"] and the decimal exponent. *)
Definition exponentialNumeral (str : string) (neg : bool) (s p : Z) : Prop :=
  exists (c : ascii) (r : string),
    allDigits (String c r) = true
    /\ digitsValue (String c r) 0 = s
    /\ str = (if neg then "-" else "")
             ++ String c (match r with
                          | EmptyString => ""
                          | _ => "." ++ r
                          end)
             ++ "e+" ++ decimalString (Z.of_nat (String.length r) + p).

(** The magnitude of a finite Number is below [10^21]. *)
Definition belowTenPow21 (x : number) : bool :=
  match x with
  | S754_zero _ => true
  | S754_finite _ m e => negb (geTenPow21 m e)
  | _ => false
  end.

Definition signBit (x : number) : bool :=
  match x with
  | S754_finite s _ _ => s
  | _ => false
  end.

(** A string of white space only; the empty string is one. *)
Fixpoint allWhiteSpace (s : string) : bool :=
  match s with
  | String c r => isWhiteSpace c && allWhiteSpace r
  | EmptyString => true
  end.

(** The previous month's earnings in the words of the spec: the costs of
    the entry found, safe-parsed when they are present, otherwise zero. *)
Definition earningsPrevMonth_spec (a : list MonthlyFinancialEntry)
  (previousMonthFormatted : string) : number :=
  match find (fun entry => strictEq (month entry) previousMonthFormatted) a with
  | Some prevMonthEntry =>
      match costs prevMonthEntry with
      | Some c => parseSafeFloat (Some c)
      | None => zero
      end
  | None => zero
  end.

(** The resolved status in the words of the spec's Selector: the nested
    [statusAggregation.status] when it is present, else the top-level
    [status]. *)
Definition resolvedStatus_spec (p : Person.t) : option string :=
  match Person.statusAggregation p ?. StatusAggregation.status with
  | Some s => Some s
  | None => Person.status p
  end.

(** The record passes the Selector: it has a person, who is active. *)
Definition selected (dataRow : SourceDataType) : bool :=
  hasPerson dataRow && isActive (personDataOf dataRow).

(** The fraction [n / 100] written with two decimals, as in ["0.85"]. *)
Definition hundredths (n : Z) : string :=
  decimalString (n / 100) ++ "." ++ padStart 2 (n mod 100).

(** No entry of the series has the month [label]. *)
Definition noEntryFor (label : string) (a : list MonthlyFinancialEntry) : bool :=
  forallb (fun entry => negb (strictEq (month entry) label)) a.

(** A person whose only data is a [costsByMonth] object. *)
Definition personWithCosts (c : CostsByMonth.t) : Person.t :=
  {| Person.name := None;
     Person.status := None;
     Person.statusAggregation := None;
     Person.workforceUtilisation := None;
     Person.costsByMonth := Some c |}.

(** The tail [t] cannot continue a number: it is empty or starts with
    white space. *)
Definition stops (t : string) : Prop :=
  match t with
  | String c _ => isWhiteSpace c = true
  | EmptyString => True
  end.

(** [n] is [y] rounded to the nearest integer, a tie going up. *)
Definition roundsHalfUp (n : Z) (y : Q) : Prop :=
  (y - (1 # 2) < inject_Z n /\ inject_Z n <= y + (1 # 2))%Q.

(** * Properties *)

(** ** Decimal digits *)

Section Digits.

Local Open Scope Z_scope.

Lemma digitValue_digitChar (d : Z) :
  0 <= d <= 9 -> digitValue (digitChar d) = Some d.
Proof.
  intros H.
  assert (In d [0; 1; 2; 3; 4; 5; 6; 7; 8; 9]) as Hin
    by (simpl; lia).
  simpl in Hin.
  repeat (destruct Hin as [<- | Hin]; [reflexivity | ]).
  contradiction.
Qed.

Lemma allDigits_app (s t : string) :
  allDigits (s ++ t) = (allDigits s && allDigits t)%bool.
Proof.
  induction s as [| c s IH]; simpl; [reflexivity | ].
  now rewrite IH, andb_assoc.
Qed.

Lemma allDigits_zeros (k : nat) : allDigits (zeros k) = true.
Proof. induction k; simpl; auto. Qed.

Lemma length_zeros (k : nat) : String.length (zeros k) = k.
Proof. induction k; simpl; auto. Qed.

Lemma length_app (s t : string) :
  String.length (s ++ t) = (String.length s + String.length t)%nat.
Proof. induction s; simpl; auto. Qed.

Lemma append_assoc (s t u : string) : (s ++ t) ++ u = s ++ (t ++ u).
Proof. induction s; simpl; congruence. Qed.

Lemma digitsValue_app (s t : string) (a : Z) :
  allDigits s = true ->
  digitsValue (s ++ t) a = digitsValue t (digitsValue s a).
Proof.
  revert a; induction s as [| c s IH]; intros a H; simpl in *; [reflexivity | ].
  apply andb_prop in H as [Hc Hs].
  unfold isDigit in Hc.
  destruct (digitValue c); [now apply IH | discriminate].
Qed.

Lemma digitsValue_zeros (k : nat) : digitsValue (zeros k) 0 = 0.
Proof. induction k; simpl; auto. Qed.

(** Reading a string of digits consumes all of it. *)
Lemma decimalDigits_app (d r : string) (a l : Z) :
  allDigits d = true ->
  decimalDigits (d ++ r) a l
  = decimalDigits r (digitsValue d a) (l + Z.of_nat (String.length d)).
Proof.
  revert a l; induction d as [| c d IH]; intros a l H.
  - simpl. now rewrite Z.add_0_r.
  - simpl in H. apply andb_prop in H as [Hc Hd].
    unfold isDigit in Hc.
    cbn [append decimalDigits digitsValue String.length].
    destruct (digitValue c); [ | discriminate].
    rewrite IH by assumption. f_equal. lia.
Qed.

Lemma decimalDigits_stop (c : ascii) (r : string) (a l : Z) :
  isDigit c = false ->
  decimalDigits (String c r) a l = (a, l, String c r).
Proof.
  unfold isDigit; intros H; cbn [decimalDigits].
  destruct (digitValue c); [discriminate | reflexivity].
Qed.

(** What [digitsFuel] puts before [acc] when the fuel covers [n]: the
    decimal digits of [n], no leading zero. *)
Lemma digitsFuel_spec (fuel : nat) :
  forall (n : Z) (acc : string),
    0 <= n < 10 ^ Z.of_nat fuel -> (1 <= fuel)%nat ->
    exists d : string,
      digitsFuel fuel n acc = d ++ acc
      /\ allDigits d = true
      /\ (1 <= String.length d)%nat
      /\ (forall a, digitsValue d a = a * 10 ^ Z.of_nat (String.length d) + n)
      /\ (String.length d = 1%nat \/ 10 ^ (Z.of_nat (String.length d) - 1) <= n).
Proof.
  induction fuel as [| fuel IH]; intros n acc Hn Hfuel.
  - lia.
  - cbn [digitsFuel].
    set (c := digitChar (n mod 10)).
    assert (Hc : digitValue c = Some (n mod 10))
      by (apply digitValue_digitChar; pose proof (Z.mod_pos_bound n 10); lia).
    destruct (Z.eqb_spec (n / 10) 0) as [Hq | Hq].
    + exists (String c "").
      repeat split.
      * simpl. unfold isDigit. now rewrite Hc.
      * simpl. lia.
      * intros a. cbn [digitsValue String.length]. rewrite Hc.
        change (Z.of_nat 1) with 1. rewrite Z.pow_1_r.
        pose proof (Z.div_mod n 10 ltac:(lia)). lia.
      * now left.
    + assert (Hn' : 0 <= n / 10 < 10 ^ Z.of_nat fuel).
      { split; [apply Z.div_pos; lia | ].
        apply Z.div_lt_upper_bound; [lia | ].
        rewrite Nat2Z.inj_succ, Z.pow_succ_r in Hn by lia. lia. }
      assert (Hfuel' : (1 <= fuel)%nat).
      { destruct fuel; [simpl in Hn'; lia | lia]. }
      destruct (IH (n / 10) (String c acc) Hn' Hfuel') as (d & Hd & Hall & Hlen & Hval & Hlow).
      exists (d ++ String c "").
      rewrite Hd, append_assoc.
      repeat split.
      * rewrite allDigits_app, Hall. simpl. unfold isDigit. now rewrite Hc.
      * rewrite length_app. simpl. lia.
      * intros a. rewrite digitsValue_app by assumption.
        cbn [digitsValue]. rewrite Hc, Hval, length_app. cbn [String.length].
        replace (Z.of_nat (String.length d + 1)) with (Z.succ (Z.of_nat (String.length d))) by lia.
        rewrite Z.pow_succ_r by lia.
        pose proof (Z.div_mod n 10 ltac:(lia)). lia.
      * right. rewrite length_app. simpl String.length.
        replace (Z.of_nat (String.length d + 1) - 1) with (Z.succ (Z.of_nat (String.length d) - 1)) by lia.
        rewrite Z.pow_succ_r by lia.
        assert (1 <= n / 10) by (assert (0 <= n / 10) by lia; lia).
        pose proof (Z.div_mod n 10 ltac:(lia)).
        pose proof (Z.mod_pos_bound n 10 ltac:(lia)).
        destruct Hlow as [Hone | Hlow].
        -- rewrite Hone. change (Z.of_nat 1 - 1) with 0. rewrite Z.pow_0_r. lia.
        -- lia.
Qed.

Lemma fuel_covers (n : Z) : 0 <= n -> n < 10 ^ Z.of_nat (S (Z.to_nat (Z.log2 n))).
Proof.
  intros Hn.
  rewrite Nat2Z.inj_succ, Z2Nat.id by apply Z.log2_nonneg.
  destruct (Z.eq_dec n 0) as [-> | Hne]; [simpl; lia | ].
  assert (n < 2 ^ Z.succ (Z.log2 n)) by (apply Z.log2_spec; lia).
  assert (2 ^ Z.succ (Z.log2 n) <= 10 ^ Z.succ (Z.log2 n)).
  { apply Z.pow_le_mono_l. lia. }
  lia.
Qed.

(** [decimalString n] is the numeral of [n]: digits only, at least one,
    denoting [n], and no more of them than [n] needs. *)
Lemma decimalString_spec (n : Z) :
  0 <= n ->
  allDigits (decimalString n) = true
  /\ (1 <= String.length (decimalString n))%nat
  /\ (forall a, digitsValue (decimalString n) a
                = a * 10 ^ Z.of_nat (String.length (decimalString n)) + n)
  /\ (forall w : nat, (1 <= w)%nat -> n < 10 ^ Z.of_nat w ->
                      (String.length (decimalString n) <= w)%nat).
Proof.
  intros Hn. unfold decimalString.
  destruct (digitsFuel_spec _ n "" (conj Hn (fuel_covers n Hn)) ltac:(lia))
    as (d & Hd & Hall & Hlen & Hval & Hlow).
  assert (Hd' : d ++ "" = d) by (clear; induction d; simpl; congruence).
  rewrite Hd, Hd'.
  repeat split; try assumption.
  intros w Hw Hlt.
  destruct Hlow as [-> | Hlow]; [assumption | ].
  assert (Z.of_nat (String.length d) - 1 < Z.of_nat w); [ | lia].
  apply (Z.pow_lt_mono_r_iff 10); lia.
Qed.

End Digits.

(** ** Fixed-point notation *)

Section FixedNotation.

Local Open Scope Z_scope.

Lemma substring_all (t : string) : substring 0 (String.length t) t = t.
Proof. induction t; simpl; congruence. Qed.

(** Cutting a string [f] characters before its end. *)
Lemma substring_split (p f : nat) :
  forall t : string,
    String.length t = (p + f)%nat ->
    substring 0 p t ++ substring p f t = t
    /\ String.length (substring 0 p t) = p
    /\ String.length (substring p f t) = f.
Proof.
  induction p as [| p IH]; intros t Hlen.
  - simpl in Hlen. subst f. rewrite substring_all.
    destruct t; simpl; auto.
  - destruct t as [| c t]; [discriminate | ].
    simpl in Hlen. injection Hlen as Hlen.
    destruct (IH t Hlen) as (Happ & Hp & Hf).
    cbn [substring append String.length].
    rewrite Happ, Hp. auto.
Qed.

Lemma digitsFuel_length (fuel : nat) :
  forall n acc, (String.length acc <= String.length (digitsFuel fuel n acc))%nat.
Proof.
  induction fuel as [| fuel IH]; intros n acc; cbn [digitsFuel]; [lia | ].
  destruct (n / 10 =? 0); [simpl; lia | ].
  etransitivity; [ | apply IH]. simpl. lia.
Qed.

Lemma decimalString_nonempty (n : Z) : decimalString n <> "".
Proof.
  unfold decimalString. cbn [digitsFuel].
  destruct (n / 10 =? 0); [discriminate | ].
  intros H.
  pose proof (digitsFuel_length (Z.to_nat (Z.log2 n)) (n / 10)
                (String (digitChar (n mod 10)) "")) as Hlen.
  rewrite H in Hlen. simpl in Hlen. lia.
Qed.

(** With at least one fraction digit, [fixedNotation] writes a point with
    exactly [f] digits after it and at least one before it, and the digits
    are those of [n]. *)
Lemma fixedNotation_numeral (n : Z) (f : nat) :
  0 <= n -> (1 <= f)%nat ->
  exists a b : string,
    fixedNotation n f = a ++ "." ++ b
    /\ a <> "" /\ allDigits a = true /\ allDigits b = true
    /\ String.length b = f /\ digitsValue (a ++ b) 0 = n.
Proof.
  intros Hn Hf.
  destruct (decimalString_spec n Hn) as (Hall & Hlen & Hval & _).
  unfold fixedNotation.
  destruct f as [| f']; [lia | ].
  set (f := S f') in *.
  set (m := decimalString n) in *.
  set (m' := if (String.length m <=? f)%nat
             then zeros (f + 1 - String.length m) ++ m else m).
  assert (Hm' : allDigits m' = true /\ digitsValue m' 0 = n
                /\ (f + 1 <= String.length m')%nat).
  { unfold m'. destruct (Nat.leb_spec (String.length m) f) as [Hle | Hgt].
    - rewrite allDigits_app, allDigits_zeros, Hall.
      rewrite digitsValue_app by apply allDigits_zeros.
      rewrite digitsValue_zeros, Hval, length_app, length_zeros.
      repeat split; lia.
    - rewrite Hall, Hval. repeat split; lia. }
  destruct Hm' as (Hall' & Hval' & Hlen').
  destruct (substring_split (String.length m' - f) f m' ltac:(lia))
    as (Happ & Hp & Hb).
  exists (substring 0 (String.length m' - f) m'), (substring (String.length m' - f) f m').
  rewrite <- Happ, allDigits_app in Hall'.
  apply andb_prop in Hall' as [Ha Hb'].
  repeat split; try assumption.
  - intros Hempty. rewrite Hempty in Hp. simpl in Hp. lia.
  - now rewrite Happ.
Qed.

Lemma fixedNotation_not_minus (n : Z) (f : nat) (sign : string) :
  (sign = "" \/ sign = "-") -> sign ++ fixedNotation n (S f) <> "-".
Proof.
  intros Hs. unfold fixedNotation.
  match goal with
  | |- context [substring 0 ?p ?t ++ "." ++ ?b] =>
      generalize (substring 0 p t) as a; generalize b as b'
  end.
  intros b' a.
  destruct Hs as [-> | ->]; destruct a as [| c [| c' a]]; simpl; discriminate.
Qed.

End FixedNotation.

(** ** [toFixed] *)

Section ToFixed.

Local Open Scope Z_scope.

(** The magnitude of a finite Number, as the fraction it is built from. *)
Lemma toQ_abs (s : bool) (m : positive) (e : Z) (q : Q) :
  toQ (S754_finite s m e) = Some q ->
  (Qabs q == if 0 <=? e then inject_Z (Zpos m * 2 ^ e)
             else Zpos m # Z.to_pos (2 ^ (- e)))%Q.
Proof.
  intros H. unfold toQ in H.
  set (v := if 0 <=? e then _ else _) in *.
  assert (Hq : q = Qred (if s then (- v)%Q else v)) by congruence.
  subst q. clear H. rewrite Qred_correct.
  assert (Hv : (0 <= v)%Q).
  { unfold v. destruct (Z.leb_spec 0 e).
    - change 0%Q with (inject_Z 0). rewrite <- Zle_Qle.
      pose proof (Z.pow_nonneg 2 e ltac:(lia)).
      apply Z.mul_nonneg_nonneg; lia.
    - unfold Qle. cbn [Qnum Qden]. lia. }
  destruct s; [rewrite Qabs_opp | ]; now apply Qabs_pos.
Qed.

(** [nearestScaled m e f] is [m * 2^e * 10^f] rounded half up. *)
Lemma nearestScaled_roundsHalfUp (s : bool) (m : positive) (e : Z) (f : nat) (q : Q) :
  toQ (S754_finite s m e) = Some q ->
  roundsHalfUp (nearestScaled m e f) (Qabs q * inject_Z (10 ^ Z.of_nat f)).
Proof.
  intros H. apply toQ_abs in H.
  unfold roundsHalfUp. rewrite H. clear H.
  unfold nearestScaled.
  set (t := 10 ^ Z.of_nat f).
  assert (Ht : 0 < t) by (apply Z.pow_pos_nonneg; lia).
  destruct (Z.leb_spec 0 e) as [He | He].
  - unfold Qlt, Qle, Qminus, Qplus, Qopp, Qmult, inject_Z; cbn [Qnum Qden].
    split; lia.
  - set (d := 2 ^ (- e)).
    assert (Hd : 0 < d) by (apply Z.pow_pos_nonneg; lia).
    replace (2 ^ (1 - e)) with (2 * d)
      by (unfold d; replace (1 - e) with (Z.succ (- e)) by lia;
          rewrite Z.pow_succ_r by lia; reflexivity).
    set (n := (2 * Zpos m * t + d) / (2 * d)).
    assert (Hdiv : 2 * d * n <= 2 * Zpos m * t + d < 2 * d * n + 2 * d).
    { pose proof (Z.div_mod (2 * Zpos m * t + d) (2 * d) ltac:(lia)).
      pose proof (Z.mod_pos_bound (2 * Zpos m * t + d) (2 * d) ltac:(lia)).
      fold n in H. lia. }
    unfold Qlt, Qle, Qminus, Qplus, Qopp, Qmult, inject_Z; cbn [Qnum Qden].
    rewrite ?Pos2Z.inj_mul, ?Z2Pos.id by lia.
    split; nia.
Qed.

Lemma string_app_inv_tail (t : string) :
  forall s s' : string, s ++ t = s' ++ t -> s = s'.
Proof.
  assert (Hlen : forall a b : string, a = b -> String.length a = String.length b)
    by (intros; now subst).
  induction s as [| c s IH]; intros [| c' s'] H; simpl in H.
  - reflexivity.
  - apply Hlen in H. simpl in H. rewrite length_app in H. lia.
  - apply Hlen in H. simpl in H. rewrite length_app in H. lia.
  - injection H as -> H. f_equal. now apply IH.
Qed.

Lemma toStringLarge_nonempty (m : positive) (e : Z) : toStringLarge m e <> "".
Proof.
  unfold toStringLarge.
  destruct (shortestDecimal _ m e) as [s p].
  pose proof (decimalString_nonempty s) as Hd.
  destruct (decimalString s) as [| c [| c' r]]; [congruence | discriminate | discriminate].
Qed.

Lemma toStringLarge_not_minus (m : positive) (e : Z) : toStringLarge m e <> "-".
Proof.
  unfold toStringLarge.
  destruct (shortestDecimal _ m e) as [s p].
  pose proof (decimalString_nonempty s) as Hd.
  destruct (decimalString s) as [| c [| c' r]]; [congruence | discriminate | discriminate].
Qed.

(** [toFixed] never writes a lone minus sign. *)
Lemma toFixed_not_minus (x : number) (f : nat) : toFixed x (S f) <> "-".
Proof.
  destruct x as [s | s | | s m e]; cbn [toFixed].
  - apply (fixedNotation_not_minus 0 f ""). now left.
  - destruct s; discriminate.
  - discriminate.
  - destruct (geTenPow21 m e).
    + destruct s; cbn [append].
      * intros H. injection H as H. now apply toStringLarge_nonempty in H.
      * apply toStringLarge_not_minus.
    + apply fixedNotation_not_minus. destruct s; auto.
Qed.

Lemma nearestScaled_nonneg (m : positive) (e : Z) (f : nat) :
  0 <= nearestScaled m e f.
Proof.
  unfold nearestScaled.
  assert (0 <= 10 ^ Z.of_nat f) by (apply Z.pow_nonneg; lia).
  destruct (Z.leb_spec 0 e).
  - pose proof (Z.pow_nonneg 2 e ltac:(lia)).
    repeat apply Z.mul_nonneg_nonneg; lia.
  - apply Z.div_pos.
    + pose proof (Z.pow_nonneg 2 (- e) ltac:(lia)).
      apply Z.add_nonneg_nonneg; [ | assumption].
      repeat apply Z.mul_nonneg_nonneg; lia.
    + apply Z.pow_pos_nonneg; lia.
Qed.

End ToFixed.

(** ** Exponential notation *)

Section Shortest.

Local Open Scope Z_scope.

(** The Number itself is among the integers that round to it. *)
Lemma roundsTo_self (m : positive) (e : Z) :
  0 <= e -> roundsTo m e (Zpos m * 2 ^ e) = true.
Proof.
  intros He. unfold roundsTo.
  assert (0 < 2 ^ e) by (apply Z.pow_pos_nonneg; lia).
  assert (0 < 2 ^ (e + 1)) by (apply Z.pow_pos_nonneg; lia).
  destruct (Zpos m =? 2 ^ 52); destruct (Z.even (Zpos m));
    apply andb_true_intro; split;
    first [apply Z.leb_le | apply Z.ltb_lt]; lia.
Qed.

(** The digits that [shortestDecimal] chooses round to the Number. *)
Lemma shortestDecimal_roundsTo (fuel : nat) (m : positive) (e : Z) :
  0 <= e ->
  roundsTo m e (fst (shortestDecimal fuel m e)
                * 10 ^ snd (shortestDecimal fuel m e)) = true.
Proof.
  intros He.
  induction fuel as [| fuel IH].
  - cbn [shortestDecimal fst snd]. rewrite Z.pow_0_r, Z.mul_1_r.
    now apply roundsTo_self.
  - cbn [shortestDecimal].
    set (x := Zpos m * 2 ^ e).
    set (q := 10 ^ Z.of_nat (S fuel)).
    assert (Hq : q <> 0) by (apply Z.pow_nonzero; lia).
    set (lo := x / q * q).
    assert (Hlo : lo / q * q = lo)
      by (unfold lo; now rewrite Z.div_mul).
    assert (Hhi : (lo + q) / q * q = lo + q).
    { unfold lo at 1. replace (x / q * q + q) with ((x / q + 1) * q) by ring.
      rewrite Z.div_mul by assumption. unfold lo. ring. }
    destruct (0 <? lo) eqn:Hpos; cbn [andb].
    + destruct (roundsTo m e lo) eqn:Rlo; destruct (roundsTo m e (lo + q)) eqn:Rhi;
        cbn [andb].
      * destruct (x - lo ?= lo + q - x); [destruct (Z.even (lo / q)) | | ];
          cbn [fst snd]; fold q; rewrite ?Hlo, ?Hhi; assumption.
      * cbn [fst snd]. fold q. now rewrite Hlo.
      * cbn [fst snd]. fold q. now rewrite Hhi.
      * exact IH.
    + destruct (roundsTo m e (lo + q)) eqn:Rhi.
      * cbn [fst snd]. fold q. now rewrite Hhi.
      * exact IH.
Qed.

End Shortest.

(** ** What [toFixed] writes *)

Section ToFixedNumeral.

Local Open Scope Z_scope.

(** Below [10^21], [toFixed] with [f >= 1] fraction digits writes the
    magnitude scaled by [10^f] and rounded half up, as a numeral with
    exactly [f] fraction digits. *)
Lemma toFixed_fixedNumeral (x : number) (f : nat) (q : Q) :
  toQ x = Some q -> belowTenPow21 x = true -> (1 <= f)%nat ->
  exists n : Z,
    roundsHalfUp n (Qabs q * inject_Z (10 ^ Z.of_nat f))
    /\ fixedNumeral (toFixed x f) (signBit x) n f.
Proof.
  intros Hq Hlt Hf.
  destruct x as [s | s | | s m e]; try discriminate.
  - exists 0. split.
    + injection Hq as <-. unfold roundsHalfUp, Qlt, Qle. simpl. lia.
    + cbn [toFixed signBit]. unfold fixedNumeral.
      destruct (fixedNotation_numeral 0 f ltac:(lia) Hf) as (a & b & H).
      exists a, b. exact H.
  - exists (nearestScaled m e f). split.
    + now apply (nearestScaled_roundsHalfUp s).
    + cbn [toFixed signBit belowTenPow21] in *.
      apply negb_true_iff in Hlt. rewrite Hlt.
      destruct (fixedNotation_numeral (nearestScaled m e f) f
                  (nearestScaled_nonneg m e f) Hf) as (a & b & H & Hrest).
      exists a, b. rewrite H. split; [reflexivity | exact Hrest].
Qed.

(** Below [10^21], [toFixed] with no fraction digit writes the magnitude
    rounded half up, as an integer numeral. *)
Lemma toFixed_integerNumeral (x : number) (q : Q) :
  toQ x = Some q -> belowTenPow21 x = true ->
  exists n : Z,
    roundsHalfUp n (Qabs q) /\ integerNumeral (toFixed x 0) (signBit x) n.
Proof.
  intros Hq Hlt.
  destruct x as [s | s | | s m e]; try discriminate.
  - exists 0. split.
    + injection Hq as <-. unfold roundsHalfUp, Qlt, Qle. simpl. lia.
    + exists "0". repeat split; discriminate.
  - exists (nearestScaled m e 0). split.
    + pose proof (nearestScaled_roundsHalfUp s m e 0 q Hq) as H.
      unfold roundsHalfUp in *.
      change (inject_Z (10 ^ Z.of_nat 0)) with 1%Q in H.
      now rewrite Qmult_1_r in H.
    + cbn [toFixed signBit belowTenPow21 fixedNotation] in *.
      apply negb_true_iff in Hlt. rewrite Hlt.
      destruct (decimalString_spec (nearestScaled m e 0)
                  (nearestScaled_nonneg m e 0)) as (Hall & Hlen & Hval & _).
      exists (decimalString (nearestScaled m e 0)).
      repeat split.
      * apply decimalString_nonempty.
      * assumption.
      * rewrite Hval. lia.
Qed.

End ToFixedNumeral.

(** ** The helpers: [formatPercentage] and [parseSafeFloat] *)

Section Helpers.

Lemma mul_NaN (y : number) : mul NaN y = NaN.
Proof. reflexivity. Qed.

Lemma trimStart_cases (v : string) :
  (trimStart v = "" /\ allWhiteSpace v = true)
  \/ (exists c r, trimStart v = String c r /\ isWhiteSpace c = false
                  /\ allWhiteSpace v = false).
Proof.
  induction v as [| c v IH]; [now left | ].
  cbn [trimStart allWhiteSpace].
  destruct (isWhiteSpace c) eqn:Hc.
  - exact IH.
  - right. exists c, v. auto.
Qed.

(** [trim] leaves nothing exactly of the strings of white space. *)
Lemma trim_empty_iff (v : string) : trim v = "" <-> allWhiteSpace v = true.
Proof.
  unfold trim.
  destruct (trimStart_cases v) as [[Ht Hw] | (c & r & Ht & Hc & Hw)];
    rewrite Ht, Hw.
  - split; reflexivity.
  - cbn [trimEnd]. rewrite Hc.
    split; [ | discriminate].
    destruct (trimEnd r); discriminate.
Qed.

(** A string of white space does not parse. *)
Lemma parseFloat_allWhiteSpace (v : string) :
  allWhiteSpace v = true -> isNaN (parseFloat v) = true.
Proof.
  intros Hw. unfold parseFloat.
  destruct (trimStart_cases v) as [[Ht _] | (c & r & _ & _ & Hw')].
  - now rewrite Ht.
  - congruence.
Qed.

(** A string that is not ["null"], has more than white space and parses
    is returned as parsed. *)
Lemma parseSafeFloat_parsed (v : string) :
  v <> "null" -> allWhiteSpace v = false -> isNaN (parseFloat v) = false ->
  parseSafeFloat (Some v) = parseFloat v.
Proof.
  intros Hnull Hw Hnan. unfold parseSafeFloat.
  apply String.eqb_neq in Hnull. rewrite Hnull.
  destruct (String.eqb_spec (trim v) "") as [Ht | Ht].
  - apply trim_empty_iff in Ht. congruence.
  - cbn [orb]. now rewrite Hnan.
Qed.

(** C2: [formatPercentage] applied to the string ["0.855"] returns ["86%"]:
    the product of the parsed Number and 100 is exactly 85.5, and the tie
    is rounded up to 86. *)
Theorem formatPercentage_half_rounds_up :
  formatPercentage (Some "0.855") = "86%"
  /\ toQ (mul (parseFloat "0.855") (of_Z 100)) = Some (171 # 2)%Q.
Proof.
  split; vm_compute; reflexivity.
Qed.

(** C9: [parseSafeFloat] returns 0 for [null] and [undefined], for the
    string ["null"], for an empty or white-space-only string and for a
    string that does not parse as a floating-point number; for every other
    string it returns the parsed Number; in particular ["3.5"] gives 3.5. *)
Theorem parseSafeFloat_cases :
  parseSafeFloat None = zero
  /\ parseSafeFloat (Some "null") = zero
  /\ parseSafeFloat (Some "") = zero
  /\ (forall v, allWhiteSpace v = true -> parseSafeFloat (Some v) = zero)
  /\ (forall v, isNaN (parseFloat v) = true -> parseSafeFloat (Some v) = zero)
  /\ (forall v, v <> "null" -> allWhiteSpace v = false ->
        isNaN (parseFloat v) = false ->
        parseSafeFloat (Some v) = parseFloat v)
  /\ toQ (parseSafeFloat (Some "3.5")) = Some (7 # 2)%Q.
Proof.
  split; [reflexivity | ].
  split; [reflexivity | ].
  split; [reflexivity | ].
  split.
  { intros v Hw. unfold parseSafeFloat.
    apply trim_empty_iff in Hw. rewrite Hw.
    now rewrite orb_true_r. }
  split.
  { intros v Hnan. unfold parseSafeFloat.
    rewrite Hnan. now destruct (_ || _)%bool. }
  split; [exact parseSafeFloat_parsed | vm_compute; reflexivity].
Qed.

(** The inner cases of C9 at concrete inputs. *)
Lemma parseSafeFloat_cases_witness :
  parseSafeFloat (Some "   ") = zero
  /\ parseSafeFloat (Some "abc") = zero
  /\ parseSafeFloat (Some "1200") = parseFloat "1200".
Proof.
  destruct parseSafeFloat_cases as (_ & _ & _ & Hw & Hnan & Hnum & _).
  split; [apply Hw; reflexivity | ].
  split; [apply Hnan; reflexivity | ].
  apply Hnum; [discriminate | reflexivity | reflexivity].
Defined.

End Helpers.

(** ** Month labels *)

Section MonthLabels.

Local Open Scope Z_scope.

Lemma append_empty_r (s : string) : s ++ "" = s.
Proof. induction s; simpl; congruence. Qed.

(** A number below [10^w] padded to [w] digits: exactly [w] digits, which
    denote it. *)
Lemma padStart_spec (w : nat) (n : Z) :
  (1 <= w)%nat -> 0 <= n < 10 ^ Z.of_nat w ->
  allDigits (padStart w n) = true
  /\ String.length (padStart w n) = w
  /\ digitsValue (padStart w n) 0 = n.
Proof.
  intros Hw [Hn Hlt].
  destruct (decimalString_spec n Hn) as (Hall & Hlen & Hval & Hmax).
  specialize (Hmax w Hw Hlt).
  unfold padStart.
  rewrite allDigits_app, allDigits_zeros, Hall, length_app, length_zeros.
  rewrite digitsValue_app by apply allDigits_zeros.
  rewrite digitsValue_zeros, Hval.
  repeat split; lia.
Qed.

(** Reading back the label of a month of the years 0 to 9999. *)
Lemma parseMonthLabel_monthLabel (y m : Z) :
  0 <= y <= 9999 -> 1 <= m <= 12 ->
  parseMonthLabel (monthLabel y m) = Some (y, m).
Proof.
  intros Hy Hm.
  destruct (padStart_spec 4 y ltac:(lia) ltac:(simpl; lia)) as (Hay & Hly & Hvy).
  destruct (padStart_spec 2 m ltac:(lia) ltac:(simpl; lia)) as (Ham & Hlm & Hvm).
  unfold parseMonthLabel, monthLabel.
  destruct (Z.ltb_spec y 0) as [Hneg | _]; [lia | ].
  rewrite decimalDigits_app by assumption.
  rewrite Hvy, Hly.
  change ("-" ++ padStart 2 m) with (String "-" (padStart 2 m)).
  rewrite decimalDigits_stop by reflexivity.
  rewrite <- (append_empty_r (padStart 2 m)).
  rewrite decimalDigits_app by assumption.
  rewrite Hvm, Hlm.
  cbn [decimalDigits].
  replace (1 <=? m) with true by (symmetry; apply Z.leb_le; lia).
  replace (m <=? 12) with true by (symmetry; apply Z.leb_le; lia).
  reflexivity.
Qed.

Lemma monthLabel_truthy (y m : Z) : truthy (Some (monthLabel y m)) = true.
Proof.
  unfold monthLabel.
  generalize (padStart 2 m) as b.
  generalize (if y <? 0 then "-" ++ padStart 4 (- y) else padStart 4 y) as a.
  intros a b. destruct a; reflexivity.
Qed.

End MonthLabels.

(** ** The previous month's net earnings *)

Section NetEarnings.

Variable dayjsPreviousMonth : string -> string.

Lemma latestDataMonthEntry_nonempty (a : list MonthlyFinancialEntry) :
  a <> [] -> exists latest, latestDataMonthEntry a = Some latest.
Proof.
  intros Ha. unfold latestDataMonthEntry.
  destruct (nth_error a (List.length a - 1)) as [e | ] eqn:He; [now exists e | ].
  apply nth_error_None in He.
  destruct a; [congruence | simpl in He; lia].
Qed.

Lemma length_eqb_0 (A : Type) (a : list A) :
  (List.length a =? 0)%nat = true <-> a = [].
Proof. destruct a; simpl; split; congruence. Qed.

(** Past the two guards the result is the formatted difference. *)
Lemma calculateNetEarningsPrevMonth_latest
  (personData : option Person.t) (latest : MonthlyFinancialEntry) (m : string) :
  latestDataMonthEntry (earningsDataArray personData) = Some latest ->
  month latest = Some m -> truthy (Some m) = true ->
  calculateNetEarningsPrevMonth dayjsPreviousMonth personData
  = toFixed (sub (earningsPrevMonth (earningsDataArray personData)
                    (dayjsPreviousMonth m))
                 (monthlySalary personData)) 2 ++ " EUR".
Proof.
  intros Hlatest Hmonth Htruthy.
  unfold calculateNetEarningsPrevMonth.
  destruct (Nat.eqb_spec (List.length (earningsDataArray personData)) 0) as [H0 | _].
  - apply length_zero_iff_nil in H0. rewrite H0 in Hlatest. discriminate.
  - now rewrite Hlatest, Hmonth, Htruthy.
Qed.

Lemma formatted_not_sentinel (x : number) : toFixed x 2 ++ " EUR" <> "- EUR".
Proof.
  intros H.
  apply (string_app_inv_tail " EUR" (toFixed x 2) "-") in H.
  now apply toFixed_not_minus in H.
Qed.

(** The sentinel is returned exactly when the array is empty or the month
    of its last entry is falsy. *)
Lemma calculateNetEarningsPrevMonth_sentinel_iff (personData : option Person.t) :
  calculateNetEarningsPrevMonth dayjsPreviousMonth personData = "- EUR"
  <-> (earningsDataArray personData = []
       \/ exists latest,
            latestDataMonthEntry (earningsDataArray personData) = Some latest
            /\ truthy (month latest) = false).
Proof.
  unfold calculateNetEarningsPrevMonth.
  destruct (Nat.eqb_spec (List.length (earningsDataArray personData)) 0) as [H0 | H0].
  - apply length_zero_iff_nil in H0. split; auto.
  - assert (Hne : earningsDataArray personData <> [])
      by (intros E; rewrite E in H0; now apply H0).
    destruct (latestDataMonthEntry_nonempty _ Hne) as [latest Hlatest].
    rewrite Hlatest.
    destruct (month latest) as [m | ] eqn:Hm.
    + destruct (truthy (Some m)) eqn:Ht.
      * split.
        -- intros H. now apply formatted_not_sentinel in H.
        -- intros [E | (l & Hl & Hf)]; [contradiction | ].
           injection Hl as <-. rewrite Hm in Hf. congruence.
      * split; [ | reflexivity].
        intros _. right. exists latest. now rewrite Hm.
    + split; [ | reflexivity].
      intros _. right. exists latest. now rewrite Hm.
Qed.

End NetEarnings.

Section NetEarningsClaims.

Variable dayjsPreviousMonth : string -> string.

(** Where the costs found parse, the script's [parseFloat] and the safe
    parse of the spec give the same earnings. *)
Lemma earningsPrevMonth_agrees (a : list MonthlyFinancialEntry) (label : string) :
  (forall e c,
      find (fun entry => strictEq (month entry) label) a = Some e ->
      costs e = Some c -> c <> "" -> isNaN (parseFloat c) = false) ->
  earningsPrevMonth a label = earningsPrevMonth_spec a label.
Proof.
  intros Hparse. unfold earningsPrevMonth, earningsPrevMonth_spec.
  destruct (find _ a) as [e | ]; [ | reflexivity].
  destruct (costs e) as [c | ] eqn:Hc; [ | reflexivity].
  destruct c as [| ch c'] eqn:Hcs; [reflexivity | ].
  cbn [truthy].
  specialize (Hparse e _ eq_refl Hc ltac:(discriminate)).
  symmetry. apply parseSafeFloat_parsed; try assumption.
  - intros E. rewrite E in Hparse. discriminate.
  - destruct (allWhiteSpace (String ch c')) eqn:Hw; [ | reflexivity].
    apply parseFloat_allWhiteSpace in Hw. congruence.
Qed.

(** C6, amended: the result is the sentinel ["- EUR"] exactly when the
    selected series is empty or its last entry has no month (an absent or
    empty one); in every other case it is [toFixed(2)] of the net earnings
    followed by [" EUR"], which, for finite net earnings of magnitude below
    [10^21], is the numeral with exactly two fraction digits of the net
    earnings rounded to hundredths. *)
Theorem calculateNetEarningsPrevMonth_result (personData : option Person.t) :
  (calculateNetEarningsPrevMonth dayjsPreviousMonth personData = "- EUR"
   <-> (earningsDataArray personData = []
        \/ exists latest,
             latestDataMonthEntry (earningsDataArray personData) = Some latest
             /\ truthy (month latest) = false))
  /\ (forall latest m,
        latestDataMonthEntry (earningsDataArray personData) = Some latest ->
        month latest = Some m -> truthy (Some m) = true ->
        let netEarnings :=
          sub (earningsPrevMonth (earningsDataArray personData)
                 (dayjsPreviousMonth m))
              (monthlySalary personData) in
        calculateNetEarningsPrevMonth dayjsPreviousMonth personData
        = toFixed netEarnings 2 ++ " EUR"
        /\ (forall q,
              toQ netEarnings = Some q -> belowTenPow21 netEarnings = true ->
              exists n : Z,
                fixedNumeral (toFixed netEarnings 2) (signBit netEarnings) n 2
                /\ roundsHalfUp n (Qabs q * inject_Z 100))).
Proof.
  split; [apply calculateNetEarningsPrevMonth_sentinel_iff | ].
  intros latest m Hlatest Hmonth Htruthy netEarnings.
  split; [now apply (calculateNetEarningsPrevMonth_latest _ _ latest m) | ].
  intros q Hq Hlt.
  destruct (toFixed_fixedNumeral netEarnings 2 q Hq Hlt ltac:(lia))
    as (n & Hround & Hnum).
  exists n. split; assumption.
Qed.

End NetEarningsClaims.

Section NetEarningsExamples.

Local Open Scope Z_scope.

(** C6 as stated fails: the series is not empty and its last entry has a
    month, yet the result is ["-1e+21 EUR"], which is not a numeral with two
    fraction digits followed by [" EUR"]. *)
Lemma calculateNetEarningsPrevMonth_exponential :
  latestDataMonthEntry (earningsDataArray (Some hugeSalaryPerson))
  = Some (entry "2024-06" "1200")
  /\ netEarningsPrevMonthOf (Some hugeSalaryPerson) = "-1e+21 EUR"
  /\ ~ (exists s neg n,
          netEarningsPrevMonthOf (Some hugeSalaryPerson) = s ++ " EUR"
          /\ fixedNumeral s neg n 2).
Proof.
  assert (Hres : netEarningsPrevMonthOf (Some hugeSalaryPerson) = "-1e+21 EUR")
    by (vm_compute; reflexivity).
  split; [reflexivity | ].
  split; [exact Hres | ].
  intros (s & neg & n & Hs & a & b & Heq & _ & Ha & _).
  rewrite Hres in Hs.
  apply (string_app_inv_tail " EUR" "-1e+21" s) in Hs. subst s.
  destruct neg; cbn [append] in Heq.
  - injection Heq as Heq.
    destruct a as [| c a]; [discriminate | ].
    injection Heq as <- Heq.
    destruct a as [| c a]; [discriminate | ].
    injection Heq as <- Heq.
    discriminate.
  - destruct a as [| c a]; [discriminate | ].
    injection Heq as <- Heq.
    discriminate.
Qed.

(** The sentinel and the formatted result of C6 at concrete inputs: an
    empty series, and the series and salary of the spec's example. *)
Lemma calculateNetEarningsPrevMonth_result_witness :
  netEarningsPrevMonthOf (Some inactivePerson) = "- EUR"
  /\ netEarningsPrevMonthOf (Some examplePerson)
     = toFixed (sub (earningsPrevMonth exampleSeries (previousMonthLabel "2024-06"))
                    (parseSafeFloat (Some "800"))) 2 ++ " EUR".
Proof.
  split.
  - apply (proj1 (calculateNetEarningsPrevMonth_result previousMonthLabel _)).
    left. reflexivity.
  - apply (proj2 (calculateNetEarningsPrevMonth_result previousMonthLabel
                    (Some examplePerson))
             (entry "2024-06" "1200") "2024-06");
      reflexivity.
Defined.

(** C1 fails on the script: the entry of the previous month is found by its
    label, and its costs, the string ["null"], are read by [parseFloat]
    where the spec safe-parses them; the earnings are NaN, not 0, and the
    result is ["NaN EUR"]. *)
Theorem earningsPrevMonth_null_costs :
  previousMonthLabel "2024-06" = "2024-05"
  /\ earningsPrevMonth nullCostsSeries "2024-05" = NaN
  /\ earningsPrevMonth_spec nullCostsSeries "2024-05" = zero
  /\ netEarningsPrevMonthOf
       (Some (samplePerson (Some "active") None [] nullCostsSeries (Some "800")))
     = "NaN EUR".
Proof.
  repeat split; vm_compute; reflexivity.
Qed.

(** The examples of the spec: earnings of 1000 in the month before the
    last one and a salary of 800 give ["200.00 EUR"]; with no entry for
    that month the earnings count as 0. *)
Example netEarnings_examples :
  netEarningsPrevMonthOf (Some examplePerson) = "200.00 EUR"
  /\ netEarningsPrevMonthOf
       (Some (samplePerson (Some "active") None [] gapSeries (Some "800")))
     = "-800.00 EUR".
Proof.
  split; vm_compute; reflexivity.
Qed.

(** The agreement of the script with the safe parse of the spec, at the
    series of the spec's example. *)
Lemma earningsPrevMonth_agrees_witness :
  earningsPrevMonth exampleSeries "2024-05"
  = earningsPrevMonth_spec exampleSeries "2024-05".
Proof.
  apply earningsPrevMonth_agrees.
  intros e c He Hc _.
  injection He as <-. injection Hc as <-. reflexivity.
Defined.

(** C5: for a series whose last entry has the month label of month [m] of
    year [y], the label looked up is that of the month before, the December
    of the year before for a January, and the result is computed from the
    earnings under that label; ["2024-07"] gives ["2024-06"] and
    ["2024-01"] gives ["2023-12"]. *)
Theorem previousMonth_of_reference_month :
  (forall (personData : option Person.t) (latest : MonthlyFinancialEntry) (y m : Z),
      latestDataMonthEntry (earningsDataArray personData) = Some latest ->
      month latest = Some (monthLabel y m) ->
      1 <= y <= 9999 -> 1 <= m <= 12 ->
      let previous :=
        if m =? 1 then monthLabel (y - 1) 12 else monthLabel y (m - 1) in
      previousMonthLabel (monthLabel y m) = previous
      /\ netEarningsPrevMonthOf personData
         = toFixed (sub (earningsPrevMonth (earningsDataArray personData) previous)
                        (monthlySalary personData)) 2 ++ " EUR")
  /\ previousMonthLabel "2024-07" = "2024-06"
  /\ previousMonthLabel "2024-01" = "2023-12".
Proof.
  split; [ | split; reflexivity].
  intros personData latest y m Hlatest Hmonth Hy Hm previous.
  assert (Hprev : previousMonthLabel (monthLabel y m) = previous).
  { unfold previousMonthLabel.
    rewrite parseMonthLabel_monthLabel by lia. reflexivity. }
  split; [exact Hprev | ].
  unfold netEarningsPrevMonthOf.
  rewrite (calculateNetEarningsPrevMonth_latest previousMonthLabel
             personData latest (monthLabel y m) Hlatest Hmonth
             (monthLabel_truthy y m)).
  now rewrite Hprev.
Qed.

(** C5 at the series of the spec's example, whose last month is June 2024. *)
Lemma previousMonth_of_reference_month_witness :
  previousMonthLabel (monthLabel 2024 6) = monthLabel 2024 5
  /\ netEarningsPrevMonthOf (Some examplePerson)
     = toFixed (sub (earningsPrevMonth exampleSeries (monthLabel 2024 5))
                    (parseSafeFloat (Some "800"))) 2 ++ " EUR".
Proof.
  apply (proj1 previousMonth_of_reference_month
           (Some examplePerson) (entry "2024-06" "1200") 2024 6);
    [reflexivity | reflexivity | lia | lia].
Defined.

End NetEarningsExamples.

(** ** The rows of the table *)

Section Rows.

Variable dayjsPreviousMonth : string -> string.

Lemma strictEq_true (v : option string) (s : string) :
  strictEq v s = true <-> v = Some s.
Proof.
  destruct v as [v' | ]; simpl.
  - rewrite String.eqb_eq. split; congruence.
  - split; discriminate.
Qed.

Lemma isActive_iff (p : Person.t) :
  isActive (Some p) = true
  <-> (Person.statusAggregation p ?. StatusAggregation.status = Some "active"
       \/ Person.status p = Some "active").
Proof.
  unfold isActive. cbn [chain].
  now rewrite orb_true_iff, !strictEq_true.
Qed.

(** [filter], [map] and [filter] together keep the selected records and
    build one row from each. *)
Lemma tableData_map_selected (sourceData : list SourceDataType) :
  tableData dayjsPreviousMonth sourceData
  = map (fun dataRow => buildRow dayjsPreviousMonth (personDataOf dataRow))
        (filter selected sourceData).
Proof.
  unfold tableData.
  induction sourceData as [| dataRow rest IH]; [reflexivity | ].
  cbn [filter]. unfold selected at 1.
  destruct (hasPerson dataRow); cbn [andb map nonNull]; [ | exact IH].
  unfold tableRow at 1.
  destruct (isActive (personDataOf dataRow)); cbn [negb map nonNull].
  - now rewrite IH.
  - exact IH.
Qed.

(** C4: the rows are built one from each source record that has an
    [employees] or [externals] object and is active, in order; so there
    are exactly as many rows as such records, and no more rows than source
    records. *)
Theorem tableData_row_count (sourceData : list SourceDataType) :
  tableData dayjsPreviousMonth sourceData
  = map (fun dataRow => buildRow dayjsPreviousMonth (personDataOf dataRow))
        (filter (fun dataRow =>
                   hasPerson dataRow && isActive (personDataOf dataRow))
                sourceData)
  /\ List.length (tableData dayjsPreviousMonth sourceData)
     = List.length (filter (fun dataRow =>
                              hasPerson dataRow && isActive (personDataOf dataRow))
                           sourceData)
  /\ (List.length (tableData dayjsPreviousMonth sourceData) <= List.length sourceData)%nat.
Proof.
  pose proof (tableData_map_selected sourceData) as H.
  unfold selected in H.
  split; [exact H | ].
  rewrite H, length_map.
  split; [reflexivity | apply filter_length_le].
Qed.

(** C3, amended: a record with a person is kept exactly when the nested
    [statusAggregation.status] is ["active"] or the top-level [status] is
    ["active"]; neither takes precedence, and a record that is kept gives
    the row of its person. *)
Theorem tableData_keeps_either_active (dataRow : SourceDataType) (p : Person.t) :
  personDataOf dataRow = Some p ->
  (tableData dayjsPreviousMonth [dataRow] = [buildRow dayjsPreviousMonth (Some p)]
   <-> (Person.statusAggregation p ?. StatusAggregation.status = Some "active"
        \/ Person.status p = Some "active"))
  /\ (tableData dayjsPreviousMonth [dataRow] = []
      <-> ~ (Person.statusAggregation p ?. StatusAggregation.status = Some "active"
             \/ Person.status p = Some "active")).
Proof.
  intros Hp.
  rewrite <- isActive_iff.
  unfold tableData. cbn [filter]. unfold hasPerson.
  rewrite Hp. cbn [map]. unfold tableRow. rewrite Hp.
  destruct (isActive (Some p)); cbn [negb nonNull];
    split; split; intros H;
    first [reflexivity | discriminate H | discriminate
          | exfalso; apply H; reflexivity].
Qed.

(** C7: in the row of an active person, [june], [july] and [august] are
    the percentage formats of the utilisation rates at the indices 2, 1 and
    0 of [lastThreeMonthsIndividually]; an absent index gives ["N/A"]; the
    rates 0.9, 0.8 and 0.7 give [august = "90%"], [july = "80%"] and
    [june = "70%"]. *)
Theorem last_three_months_columns :
  (forall dataRow row,
      tableRow dayjsPreviousMonth dataRow = Some row ->
      let l := lastThreeMonths (personDataOf dataRow) in
      june row = formatPercentage (nth_error l 2 ?. utilisationRate)
      /\ july row = formatPercentage (nth_error l 1 ?. utilisationRate)
      /\ august row = formatPercentage (nth_error l 0 ?. utilisationRate))
  /\ (forall (l : list UtilisationEntry) (i : nat),
        nth_error l i = None ->
        formatPercentage (nth_error l i ?. utilisationRate) = "N/A")
  /\ (exists row,
        tableRow dayjsPreviousMonth {| employees := Some examplePerson; externals := None |}
        = Some row
        /\ august row = "90%" /\ july row = "80%" /\ june row = "70%").
Proof.
  split; [ | split].
  - intros dataRow row Hrow l.
    unfold tableRow in Hrow.
    destruct (isActive (personDataOf dataRow)); [ | discriminate].
    cbn [negb] in Hrow. injection Hrow as <-.
    repeat split.
  - intros l i Hnone. now rewrite Hnone.
  - eexists. split; [reflexivity | ].
    repeat split; vm_compute; reflexivity.
Qed.

(** C10: when [employees] is populated the row is built from it alone;
    whatever [externals] holds, the same record without it gives the same
    row. *)
Theorem employees_take_precedence
  (e : Person.t) (x x' : option Person.t) :
  personDataOf {| employees := Some e; externals := x |} = Some e
  /\ tableRow dayjsPreviousMonth {| employees := Some e; externals := x |}
     = (if isActive (Some e) then Some (buildRow dayjsPreviousMonth (Some e)) else None)
  /\ tableRow dayjsPreviousMonth {| employees := Some e; externals := x |}
     = tableRow dayjsPreviousMonth {| employees := Some e; externals := x' |}
  /\ tableData dayjsPreviousMonth [{| employees := Some e; externals := x |}]
     = tableData dayjsPreviousMonth [{| employees := Some e; externals := x' |}].
Proof.
  split; [reflexivity | ].
  split; [unfold tableRow; cbn; now destruct (isActive (Some e)) | ].
  split; reflexivity.
Qed.

End Rows.

Section RowExamples.

(** C3 as stated fails: the nested status is present and is not
    ["active"], so the resolved status of the spec is not ["active"]; the
    top-level status is ["active"], and the record is kept. *)
Lemma nested_inactive_top_level_active_kept :
  resolvedStatus_spec topLevelActivePerson = Some "inactive"
  /\ Person.status topLevelActivePerson = Some "active"
  /\ tableDataOf [{| employees := Some topLevelActivePerson; externals := None |}]
     = [buildRow previousMonthLabel (Some topLevelActivePerson)].
Proof.
  repeat split.
Qed.

(** C3 at the record whose nested status is ["inactive"] and whose
    top-level status is ["active"]. *)
Lemma tableData_keeps_either_active_witness :
  tableDataOf [{| employees := Some topLevelActivePerson; externals := None |}]
  = [buildRow previousMonthLabel (Some topLevelActivePerson)].
Proof.
  apply (proj1 (tableData_keeps_either_active previousMonthLabel
                  {| employees := Some topLevelActivePerson; externals := None |}
                  topLevelActivePerson eq_refl)).
  right. reflexivity.
Defined.


(** C7 at the person of the spec's example. *)
Lemma last_three_months_columns_witness :
  june (buildRow previousMonthLabel (Some examplePerson))
  = formatPercentage (Some "0.7")
  /\ july (buildRow previousMonthLabel (Some examplePerson))
     = formatPercentage (Some "0.8")
  /\ august (buildRow previousMonthLabel (Some examplePerson))
     = formatPercentage (Some "0.9").
Proof.
  apply (proj1 (last_three_months_columns previousMonthLabel)
           {| employees := Some examplePerson; externals := None |}).
  reflexivity.
Defined.

End RowExamples.

(** * Further properties of the script *)

(** ** The safe parse *)

Section SafeParse.

(** [parseSafeFloat] never returns NaN. *)
Theorem parseSafeFloat_never_NaN (value : option string) :
  isNaN (parseSafeFloat value) = false.
Proof.
  destruct value as [v | ]; [ | reflexivity].
  unfold parseSafeFloat.
  destruct (_ || _)%bool; [reflexivity | ].
  destruct (isNaN (parseFloat v)) eqn:Hnan; [reflexivity | exact Hnan].
Qed.

(** The guards for ["null"] and for blank strings change nothing: the
    result is that of [parseFloat] with NaN replaced by 0. *)
Theorem parseSafeFloat_is_parseFloat_or_zero (v : string) :
  parseSafeFloat (Some v)
  = if isNaN (parseFloat v) then zero else parseFloat v.
Proof.
  destruct (isNaN (parseFloat v)) eqn:Hnan.
  - unfold parseSafeFloat. rewrite Hnan. now destruct (_ || _)%bool.
  - apply parseSafeFloat_parsed; [ | | assumption].
    + intros ->. discriminate.
    + destruct (allWhiteSpace v) eqn:Hw; [ | reflexivity].
      apply parseFloat_allWhiteSpace in Hw. congruence.
Qed.

End SafeParse.

(** ** White space around a number *)

Section WhiteSpace.

Local Open Scope Z_scope.

(** The white-space characters of the model, one by one. *)
Lemma isWhiteSpace_cases (c : ascii) :
  isWhiteSpace c = true ->
  In c ["009"; "010"; "011"; "012"; "013"; " "; "160"]%char.
Proof.
  unfold isWhiteSpace. cbn [existsb].
  rewrite !orb_true_iff, !N.eqb_eq.
  intros H.
  assert (Hc : forall k, N_of_ascii c = k -> c = ascii_of_N k)
    by (intros k <-; now rewrite ascii_N_embedding).
  cbn [In].
  repeat (destruct H as [H | H]; [apply Hc in H; rewrite H; cbn; tauto | ]).
  discriminate.
Qed.

Lemma allWhiteSpace_stops (t : string) : allWhiteSpace t = true -> stops t.
Proof.
  destruct t as [| c t]; cbn; [trivial | ].
  intros H. now apply andb_prop in H.
Qed.

Lemma trimStart_app_white (ws s : string) :
  allWhiteSpace ws = true -> trimStart (ws ++ s) = trimStart s.
Proof.
  induction ws as [| c ws IH]; cbn; [reflexivity | ].
  intros H. apply andb_prop in H as [Hc Hws].
  rewrite Hc. now apply IH.
Qed.

Lemma trimStart_white (ws : string) :
  allWhiteSpace ws = true -> trimStart ws = "".
Proof.
  induction ws as [| c ws IH]; cbn; [reflexivity | ].
  intros H. apply andb_prop in H as [Hc Hws].
  rewrite Hc. now apply IH.
Qed.

(** A white-space character is no digit, sign, point, exponent mark or
    letter of [Infinity]. *)
Lemma whiteSpace_not_numeric (c : ascii) :
  isWhiteSpace c = true ->
  digitValue c = None
  /\ ~ In c ["."; "+"; "-"; "e"; "E"; "I"; "n"; "f"; "i"; "t"; "y"]%char.
Proof.
  intros H. apply isWhiteSpace_cases in H. cbn [In] in H.
  repeat (destruct H as [<- | H];
          [split; [reflexivity | cbn [In]; intros K;
                   repeat (destruct K as [K | K]; [discriminate K | ]);
                   exact K] | ]).
  contradiction.
Qed.

Lemma decimalDigits_app_stops (t : string) :
  stops t ->
  forall s a l,
    decimalDigits (s ++ t) a l
    = (fst (fst (decimalDigits s a l)), snd (fst (decimalDigits s a l)),
       snd (decimalDigits s a l) ++ t).
Proof.
  intros Ht. induction s as [| c s IH]; intros a l.
  - cbn [append decimalDigits fst snd].
    destruct t as [| w t]; [reflexivity | ].
    cbn [decimalDigits].
    now rewrite (proj1 (whiteSpace_not_numeric w Ht)).
  - cbn [append decimalDigits].
    destruct (digitValue c); [apply IH | reflexivity].
Qed.

Ltac char_cases c :=
  destruct c as [[] [] [] [] [] [] [] []].

Lemma exponentPart_app_stops (t : string) :
  stops t -> forall r, exponentPart (r ++ t) = exponentPart r.
Proof.
  intros Ht r.
  assert (Htail : forall s : string,
             (let '(v, n, _) := decimalDigits (s ++ t) 0 0 in
              if n =? 0 then 0 else v)
             = (let '(v, n, _) := decimalDigits s 0 0 in
                if n =? 0 then 0 else v)
             /\ (let '(v, n, _) := decimalDigits (s ++ t) 0 0 in
                 if n =? 0 then 0 else - v)
                = (let '(v, n, _) := decimalDigits s 0 0 in
                   if n =? 0 then 0 else - v)).
  { intros s. rewrite (decimalDigits_app_stops t Ht).
    destruct (decimalDigits s 0 0) as [[v n] rest]. split; reflexivity. }
  destruct r as [| c r].
  - cbn [append]. destruct t as [| w t']; [reflexivity | ].
    cbn in Ht. char_cases w; try discriminate Ht; reflexivity.
  - cbn [append]. unfold exponentPart.
    destruct (Ascii.eqb c "e" || Ascii.eqb c "E")%bool; [ | reflexivity].
    destruct r as [| d r].
    + cbn [append]. destruct t as [| w t']; [reflexivity | ].
      cbn in Ht. char_cases w; try discriminate Ht; reflexivity.
    + cbn [append].
      char_cases d; cbv iota;
        first [ apply (proj1 (Htail r)) | apply (proj2 (Htail r))
              | apply (proj1 (Htail (String _ r))) ].
Qed.

Lemma prefix_Infinity_app_stops (t : string) :
  stops t ->
  forall s, String.prefix "Infinity" (s ++ t) = String.prefix "Infinity" s.
Proof.
  intros Ht.
  assert (Hend : forall (a : ascii) (p : string),
             In a ["I"; "n"; "f"; "i"; "t"; "y"]%char ->
             String.prefix (String a p) t = false).
  { intros a p Ha. destruct t as [| w t']; [reflexivity | ].
    cbn [String.prefix]. change (isWhiteSpace w = true) in Ht.
    destruct (ascii_dec a w) as [<- | Hne].
    - destruct (whiteSpace_not_numeric a Ht) as [_ Hnot].
      exfalso. apply Hnot. cbn [In] in *. tauto.
    - reflexivity. }
  intros s.
  do 8 (destruct s as [| ? s];
        [cbn [append]; rewrite Hend by (cbn [In]; tauto); reflexivity
        | cbn [append String.prefix];
          match goal with
          | |- context [ascii_dec ?a ?b] => destruct (ascii_dec a b)
          end; [ | reflexivity]]).
  destruct s; [destruct t | ]; reflexivity.
Qed.

Lemma strUnsignedDecimalLiteral_app_stops (t : string) (neg : bool) :
  stops t ->
  forall s, strUnsignedDecimalLiteral neg (s ++ t) = strUnsignedDecimalLiteral neg s.
Proof.
  intros Ht s. unfold strUnsignedDecimalLiteral.
  rewrite (prefix_Infinity_app_stops t Ht).
  destruct (String.prefix "Infinity" s); [reflexivity | ].
  rewrite (decimalDigits_app_stops t Ht).
  destruct (decimalDigits s 0 0) as [[i ni] r1]. cbn [fst snd].
  destruct r1 as [| c r2].
  - cbn [append]. destruct t as [| w t']; [reflexivity | ].
    cbn in Ht. char_cases w; try discriminate Ht; reflexivity.
  - cbn [append].
    assert (Hdefault : (if ni =? 0 then NaN
                        else of_decimal neg i (exponentPart (String c (r2 ++ t))))
                       = (if ni =? 0 then NaN
                          else of_decimal neg i (exponentPart (String c r2)))).
    { change (String c (r2 ++ t)) with (String c r2 ++ t).
      now rewrite (exponentPart_app_stops t Ht). }
    assert (Hpoint : (let '(m, nf, r3) := decimalDigits (r2 ++ t) i 0 in
                      if ((ni =? 0) && (nf =? 0))%bool then NaN
                      else of_decimal neg m (exponentPart r3 - nf))
                     = (let '(m, nf, r3) := decimalDigits r2 i 0 in
                        if ((ni =? 0) && (nf =? 0))%bool then NaN
                        else of_decimal neg m (exponentPart r3 - nf))).
    { rewrite (decimalDigits_app_stops t Ht).
      destruct (decimalDigits r2 i 0) as [[m nf] r3]. cbn [fst snd].
      now rewrite (exponentPart_app_stops t Ht). }
    char_cases c; cbv iota; first [exact Hpoint | exact Hdefault].
Qed.

Lemma trimStart_app_nonblank (t : string) :
  forall s c r, trimStart s = String c r -> trimStart (s ++ t) = String c (r ++ t).
Proof.
  induction s as [| a s IH]; intros c r H; [discriminate | ].
  cbn [trimStart append] in *.
  destruct (isWhiteSpace a); [now apply IH | ].
  now injection H as <- <-.
Qed.

(** [parseFloat] reads the same number whatever white space surrounds
    it. *)
Lemma parseFloat_surrounded (ws1 s ws2 : string) :
  allWhiteSpace ws1 = true -> allWhiteSpace ws2 = true ->
  parseFloat (ws1 ++ s ++ ws2) = parseFloat s.
Proof.
  intros H1 H2. unfold parseFloat.
  rewrite trimStart_app_white by assumption.
  pose proof (allWhiteSpace_stops ws2 H2) as Ht.
  destruct (trimStart s) as [| c r] eqn:Hs.
  - destruct (trimStart_cases s) as [[_ Hw] | (c & r & Hc & _)]; [ | congruence].
    assert (Hall : allWhiteSpace (s ++ ws2) = true).
    { clear - Hw H2. induction s as [| a s IH]; cbn in *; [assumption | ].
      apply andb_prop in Hw as [Ha Hw]. rewrite Ha. now apply IH. }
    now rewrite (trimStart_white _ Hall).
  - rewrite (trimStart_app_nonblank ws2 s c r Hs).
    pose proof (strUnsignedDecimalLiteral_app_stops ws2 false Ht) as Hpos.
    pose proof (strUnsignedDecimalLiteral_app_stops ws2 true Ht) as Hneg.
    assert (Hdefault : strUnsignedDecimalLiteral false (String c (r ++ ws2))
                       = strUnsignedDecimalLiteral false (String c r))
      by apply (Hpos (String c r)).
    clear Hs.
    char_cases c; cbv iota; first [apply Hpos | apply Hneg | exact Hdefault].
Qed.

(** The helpers of the script ignore white space around a number. *)
Theorem helpers_ignore_surrounding_white_space (ws1 s ws2 : string) :
  allWhiteSpace ws1 = true -> allWhiteSpace ws2 = true ->
  formatPercentage (Some (ws1 ++ s ++ ws2)) = formatPercentage (Some s)
  /\ parseSafeFloat (Some (ws1 ++ s ++ ws2)) = parseSafeFloat (Some s).
Proof.
  intros H1 H2.
  pose proof (parseFloat_surrounded ws1 s ws2 H1 H2) as H.
  split.
  - unfold formatPercentage. now rewrite H.
  - now rewrite !parseSafeFloat_is_parseFloat_or_zero, H.
Qed.

Lemma helpers_ignore_surrounding_white_space_witness :
  formatPercentage (Some (" " ++ "0.85" ++ "  ")) = formatPercentage (Some "0.85")
  /\ parseSafeFloat (Some (" " ++ "0.85" ++ "  ")) = parseSafeFloat (Some "0.85").
Proof.
  apply helpers_ignore_surrounding_white_space; reflexivity.
Defined.

End WhiteSpace.

(** ** Percentages *)

Section Percentages.

Local Open Scope Z_scope.

Lemma forallb_below (f : Z -> bool) (k : nat) :
  forallb f (map Z.of_nat (seq 0 k)) = true ->
  forall n, 0 <= n < Z.of_nat k -> f n = true.
Proof.
  intros H n Hn.
  rewrite forallb_forall in H. apply H.
  apply in_map_iff. exists (Z.to_nat n).
  split; [lia | apply in_seq; lia].
Qed.

(** A rate written in hundredths, from ["0.00"] to ["10.00"], is shown as
    exactly that many percent: the rounding of the product in binary64
    never shows. *)
Theorem whole_percentages_exact (n : Z) :
  0 <= n <= 1000 ->
  formatPercentage (Some (hundredths n)) = decimalString n ++ "%".
Proof.
  intros Hn.
  apply String.eqb_eq.
  apply (forallb_below
           (fun n => String.eqb (formatPercentage (Some (hundredths n)))
                       (decimalString n ++ "%"))
           1001); [vm_compute; reflexivity | lia].
Qed.

Lemma whole_percentages_exact_witness :
  formatPercentage (Some (hundredths 57)) = decimalString 57 ++ "%".
Proof.
  apply whole_percentages_exact. lia.
Defined.

(** A finite Number of magnitude below one half is written with the
    single digit 0. *)
Lemma small_magnitude (s : bool) (m : positive) (e : Z) (q : Q) :
  toQ (S754_finite s m e) = Some q -> (Qabs q < 1 # 2)%Q ->
  geTenPow21 m e = false /\ nearestScaled m e 0 = 0.
Proof.
  intros Hq Hlt. apply toQ_abs in Hq. rewrite Hq in Hlt. clear Hq.
  unfold geTenPow21, nearestScaled.
  destruct (Z.leb_spec 0 e) as [He | He].
  - exfalso. unfold Qlt, inject_Z in Hlt. cbn [Qnum Qden] in Hlt.
    assert (0 < 2 ^ e) by (apply Z.pow_pos_nonneg; lia).
    assert (1 <= Zpos m * 2 ^ e) by nia.
    lia.
  - set (d := 2 ^ (- e)) in *.
    assert (Hd : 0 < d) by (apply Z.pow_pos_nonneg; lia).
    unfold Qlt in Hlt. cbn [Qnum Qden] in Hlt.
    rewrite Z2Pos.id in Hlt by assumption.
    replace (2 ^ (1 - e)) with (2 * d)
      by (unfold d; replace (1 - e) with (Z.succ (- e)) by lia;
          rewrite Z.pow_succ_r by lia; reflexivity).
    split.
    + apply Z.leb_gt. assert (1 <= 10 ^ 21) by (vm_compute; discriminate). nia.
    + change (10 ^ Z.of_nat 0) with 1. apply Z.div_small. lia.
Qed.

Lemma toQ_sign (s : bool) (m : positive) (e : Z) (q : Q) :
  toQ (S754_finite s m e) = Some q ->
  if s then (q < 0)%Q else (0 < q)%Q.
Proof.
  intros H. unfold toQ in H.
  set (v := if 0 <=? e then _ else _) in *.
  assert (Hq : q = Qred (if s then (- v)%Q else v)) by congruence.
  subst q. clear H.
  assert (Hv : (0 < v)%Q).
  { unfold v. destruct (Z.leb_spec 0 e).
    - change 0%Q with (inject_Z 0). rewrite <- Zlt_Qlt.
      assert (0 < 2 ^ e) by (apply Z.pow_pos_nonneg; lia).
      apply Z.mul_pos_pos; lia.
    - unfold Qlt. cbn [Qnum Qden]. lia. }
  destruct s; rewrite Qred_correct; [ | assumption].
  apply Qopp_lt_compat in Hv. exact Hv.
Qed.

(** A rate whose product with 100 is below one half in magnitude is shown
    as ["0%"], and as ["-0%"] when it is negative. *)
Theorem formatPercentage_rounds_to_zero (v : string) (q : Q) :
  toQ (mul (parseFloat v) (of_Z 100)) = Some q -> (Qabs q < 1 # 2)%Q ->
  formatPercentage (Some v) = if Qle_bool 0 q then "0%" else "-0%".
Proof.
  intros Hq Hlt.
  assert (Hnan : isNaN (parseFloat v) = false).
  { destruct (parseFloat v); try reflexivity.
    rewrite mul_NaN in Hq. discriminate. }
  unfold formatPercentage. rewrite Hnan.
  destruct (mul (parseFloat v) (of_Z 100)) as [s | s | | s m e];
    try discriminate.
  - injection Hq as <-. reflexivity.
  - destruct (small_magnitude s m e q Hq Hlt) as [Hge Hn].
    pose proof (toQ_sign s m e q Hq) as Hs.
    cbn [toFixed fixedNotation]. rewrite Hge, Hn.
    destruct s.
    + destruct (Qle_bool 0 q) eqn:Hb; [ | reflexivity].
      apply Qle_bool_iff in Hb. exfalso.
      apply (Qlt_irrefl q). eapply Qlt_le_trans; eassumption.
    + destruct (Qle_bool 0 q) eqn:Hb; [reflexivity | ].
      apply Qlt_le_weak in Hs. apply Qle_bool_iff in Hs. congruence.
Qed.

Lemma formatPercentage_rounds_to_zero_witness :
  formatPercentage (Some "-0.004") = "-0%".
Proof.
  apply (formatPercentage_rounds_to_zero "-0.004"
           (-3602879701896397 # 9007199254740992)%Q);
    vm_compute; reflexivity.
Defined.

End Percentages.

(** ** When the net earnings are not a number *)

Section NotANumber.

Local Open Scope Z_scope.

Lemma shr_1_nonneg (mrs : shr_record) :
  0 <= shr_m mrs -> 0 <= shr_m (shr_1 mrs).
Proof.
  destruct mrs as [m r s]. cbn [shr_m].
  destruct m as [| p | p]; [ | destruct p | lia]; cbn; lia.
Qed.

Lemma iter_pos_invariant (A : Type) (P : A -> Prop) (f : A -> A) :
  (forall x, P x -> P (f x)) ->
  forall p x, P x -> P (iter_pos f p x).
Proof.
  intros Hf. induction p as [p IH | p IH | ]; intros x Hx; cbn [iter_pos]; auto.
Qed.

Lemma shr_fexp_nonneg (m e : Z) (l : location) :
  0 <= m -> 0 <= shr_m (fst (shr_fexp prec emax m e l)).
Proof.
  intros Hm. unfold shr_fexp, shr.
  assert (H0 : 0 <= shr_m (shr_record_of_loc m l))
    by (destruct l as [| []]; exact Hm).
  destruct (fexp prec emax (Zdigits2 m + e) - e) as [| p | p]; cbn [fst];
    try exact H0.
  apply (iter_pos_invariant _ (fun mrs => 0 <= shr_m mrs)); [ | exact H0].
  apply shr_1_nonneg.
Qed.

Lemma round_nearest_even_nonneg (m : Z) (l : location) :
  0 <= m -> 0 <= round_nearest_even m l.
Proof.
  intros Hm. destruct l as [| []]; cbn [round_nearest_even]; try lia.
  destruct (Z.even m); lia.
Qed.

(** Rounding a mantissa that is not negative never gives NaN. *)
Lemma binary_round_aux_not_NaN (sx : bool) (mx ex : Z) (lx : location) :
  0 <= mx -> isNaN (binary_round_aux prec emax sx mx ex lx) = false.
Proof.
  intros Hm. unfold binary_round_aux.
  pose proof (shr_fexp_nonneg mx ex lx Hm) as H1.
  destruct (shr_fexp prec emax mx ex lx) as [mrs' e']. cbn [fst] in H1.
  pose proof (shr_fexp_nonneg _ e' loc_Exact
                (round_nearest_even_nonneg _ (loc_of_shr_record mrs') H1)) as H2.
  destruct (shr_fexp prec emax _ e' loc_Exact) as [mrs'' e'']. cbn [fst] in H2.
  destruct (shr_m mrs'') as [| p | p]; [reflexivity | | lia].
  now destruct (e'' <=? emax - prec).
Qed.

Lemma binary_normalize_not_NaN (m e : Z) (szero : bool) :
  isNaN (binary_normalize prec emax m e szero) = false.
Proof.
  unfold binary_normalize, binary_round.
  destruct m as [| p | p]; [reflexivity | | ];
    destruct (shl_align p e _) as [mz ez];
    apply binary_round_aux_not_NaN; lia.
Qed.

(** A difference is NaN only for a NaN operand or for two infinities of
    the same sign. *)
Lemma sub_NaN_iff (x y : number) :
  isNaN (sub x y) = true
  <-> (isNaN x = true \/ isNaN y = true
       \/ exists s, x = S754_infinity s /\ y = S754_infinity s).
Proof.
  unfold sub. split.
  - destruct x as [sx | sx | | sx mx ex]; destruct y as [sy | sy | | sy my ey];
      cbn [SFsub isNaN]; intros H; auto; try discriminate H.
    + destruct sx, sy; discriminate H.
    + destruct sx, sy; try discriminate H; right; right; eauto.
    + rewrite binary_normalize_not_NaN in H. discriminate H.
  - intros [H | [H | (s & -> & ->)]].
    + destruct x; try discriminate H. reflexivity.
    + destruct y; try discriminate H. now destruct x.
    + now destruct s.
Qed.

End NotANumber.

Section NetEarningsNaN.

Variable dayjsPreviousMonth : string -> string.

Lemma digitsFuel_allDigits (fuel : nat) :
  forall n acc, allDigits (digitsFuel fuel n acc) = allDigits acc.
Proof.
  induction fuel as [| fuel IH]; intros n acc; cbn [digitsFuel]; [reflexivity | ].
  assert (Hd : allDigits (String (digitChar (n mod 10)) acc) = allDigits acc).
  { cbn [allDigits]. unfold isDigit.
    rewrite digitValue_digitChar
      by (pose proof (Z.mod_pos_bound n 10 ltac:(lia)); lia).
    reflexivity. }
  destruct (n / 10 =? 0)%Z; [exact Hd | ].
  now rewrite IH.
Qed.

Lemma decimalString_head (n : Z) :
  exists c r, decimalString n = String c r /\ isDigit c = true.
Proof.
  pose proof (decimalString_nonempty n) as Hne.
  pose proof (digitsFuel_allDigits (S (Z.to_nat (Z.log2 n))) n "") as Hall.
  fold (decimalString n) in Hall.
  destruct (decimalString n) as [| c r]; [congruence | ].
  exists c, r. split; [reflexivity | ].
  cbn in Hall. now apply andb_prop in Hall.
Qed.

(** [toFixed] writes ["NaN"] for NaN only. *)
Lemma toFixed_NaN (x : number) (f : nat) :
  toFixed x (S f) = "NaN" -> isNaN x = true.
Proof.
  destruct x as [s | s | | s m e]; cbn [toFixed isNaN]; [ | | reflexivity | ].
  - destruct (fixedNotation_numeral 0 (S f) ltac:(lia) ltac:(lia))
      as (a & b & -> & Hne & Ha & _).
    destruct a as [| c a]; [congruence | ].
    cbn [append]. intros H. injection H as -> _. discriminate Ha.
  - destruct s; discriminate.
  - destruct s; [discriminate | ]. cbn [append].
    destruct (geTenPow21 m e).
    + unfold toStringLarge.
      destruct (shortestDecimal _ m e) as [d p].
      destruct (decimalString_head d) as (c & r & -> & Hc).
      destruct r; cbn [append]; intros H; injection H as -> _; discriminate Hc.
    + destruct (fixedNotation_numeral (nearestScaled m e (S f)) (S f)
                  (nearestScaled_nonneg m e (S f)) ltac:(lia))
        as (a & b & -> & Hne & Ha & _).
      destruct a as [| c a]; [congruence | ].
      cbn [append]. intros H. injection H as -> _. discriminate Ha.
Qed.

Lemma earningsPrevMonth_NaN_iff (a : list MonthlyFinancialEntry) (label : string) :
  isNaN (earningsPrevMonth a label) = true
  <-> exists e c,
        find (fun entry => strictEq (month entry) label) a = Some e
        /\ costs e = Some c /\ c <> "" /\ isNaN (parseFloat c) = true.
Proof.
  unfold earningsPrevMonth.
  destruct (find _ a) as [e | ].
  - destruct (costs e) as [c | ] eqn:Hc.
    + destruct c as [| ch c'].
      * split; [discriminate | ].
        intros (e' & c & He & Hc' & Hne & _).
        injection He as <-. congruence.
      * cbn [truthy]. split.
        -- intros H. exists e, (String ch c'). repeat split; auto. discriminate.
        -- intros (e' & c & He & Hc' & _ & Hnan).
           injection He as <-. congruence.
    + split; [discriminate | ].
      intros (e' & c & He & Hc' & _). injection He as <-. congruence.
  - split; [discriminate | ].
    intros (e' & c & He & _). discriminate.
Qed.

(** Past the two guards, the result is ["NaN EUR"] exactly when the costs
    found for the previous month are a non-empty string that [parseFloat]
    cannot read, or when the earnings and the salary are infinities of the
    same sign. *)
Theorem netEarnings_NaN_iff
  (personData : option Person.t) (latest : MonthlyFinancialEntry) (m : string) :
  latestDataMonthEntry (earningsDataArray personData) = Some latest ->
  month latest = Some m -> truthy (Some m) = true ->
  (calculateNetEarningsPrevMonth dayjsPreviousMonth personData = "NaN EUR"
   <-> ((exists e c,
           find (fun entry => strictEq (month entry) (dayjsPreviousMonth m))
             (earningsDataArray personData) = Some e
           /\ costs e = Some c /\ c <> "" /\ isNaN (parseFloat c) = true)
        \/ exists s,
             earningsPrevMonth (earningsDataArray personData)
               (dayjsPreviousMonth m) = S754_infinity s
             /\ monthlySalary personData = S754_infinity s)).
Proof.
  intros Hlatest Hmonth Htruthy.
  rewrite (calculateNetEarningsPrevMonth_latest dayjsPreviousMonth
             personData latest m Hlatest Hmonth Htruthy).
  rewrite <- earningsPrevMonth_NaN_iff.
  set (earnings := earningsPrevMonth _ _).
  assert (Hsalary : isNaN (monthlySalary personData) = false)
    by apply parseSafeFloat_never_NaN.
  split.
  - intros H.
    apply (string_app_inv_tail " EUR" _ "NaN") in H.
    apply toFixed_NaN in H. apply sub_NaN_iff in H.
    destruct H as [H | [H | H]]; [now left | congruence | now right].
  - intros H.
    assert (Hnan : isNaN (sub earnings (monthlySalary personData)) = true).
    { apply sub_NaN_iff. destruct H as [H | H]; auto. }
    destruct (sub earnings (monthlySalary personData)); try discriminate Hnan.
    reflexivity.
Qed.

Lemma find_noEntryFor (label : string) (a : list MonthlyFinancialEntry) :
  noEntryFor label a = true ->
  find (fun entry => strictEq (month entry) label) a = None.
Proof.
  induction a as [| e a IH]; cbn; [reflexivity | ].
  intros H. apply andb_prop in H as [He Ha].
  apply negb_true_iff in He. rewrite He. now apply IH.
Qed.

(** A gap: when no entry of the series has the month before the last one,
    the earnings count as 0 and the result is the negated salary; with no
    salary either it is ["0.00 EUR"]. *)
Theorem netEarnings_gap
  (personData : option Person.t) (latest : MonthlyFinancialEntry) (m : string) :
  latestDataMonthEntry (earningsDataArray personData) = Some latest ->
  month latest = Some m -> truthy (Some m) = true ->
  noEntryFor (dayjsPreviousMonth m) (earningsDataArray personData) = true ->
  calculateNetEarningsPrevMonth dayjsPreviousMonth personData
  = toFixed (sub zero (monthlySalary personData)) 2 ++ " EUR"
  /\ (personData ?. Person.statusAggregation ?. StatusAggregation.monthlySalary
      = None ->
      calculateNetEarningsPrevMonth dayjsPreviousMonth personData = "0.00 EUR").
Proof.
  intros Hlatest Hmonth Htruthy Hgap.
  rewrite (calculateNetEarningsPrevMonth_latest dayjsPreviousMonth
             personData latest m Hlatest Hmonth Htruthy).
  unfold earningsPrevMonth. rewrite (find_noEntryFor _ _ Hgap).
  split; [reflexivity | ].
  intros Hnone. unfold monthlySalary. rewrite Hnone. reflexivity.
Qed.

(** Of several entries for the previous month the first one counts, also
    when it has no costs: the entries after it are never read. *)
Theorem earningsPrevMonth_first_match
  (a1 a2 : list MonthlyFinancialEntry) (e : MonthlyFinancialEntry)
  (label : string) :
  noEntryFor label a1 = true -> month e = Some label ->
  earningsPrevMonth (a1 ++ e :: a2) label = earningsPrevMonth [e] label
  /\ (truthy (costs e) = false ->
      earningsPrevMonth (a1 ++ e :: a2) label = zero).
Proof.
  intros Ha1 He.
  assert (Hmatch : strictEq (month e) label = true)
    by (rewrite He; cbn; apply String.eqb_refl).
  assert (Hfind : find (fun entry => strictEq (month entry) label) (a1 ++ e :: a2)
                  = Some e).
  { clear - Ha1 Hmatch. induction a1 as [| x a1 IH]; cbn in *.
    - now rewrite Hmatch.
    - apply andb_prop in Ha1 as [Hx Ha1]. apply negb_true_iff in Hx.
      rewrite Hx. now apply IH. }
  unfold earningsPrevMonth. rewrite Hfind. cbn [find]. rewrite Hmatch.
  split; [reflexivity | ].
  destruct (costs e) as [[| ch c] | ]; cbn; intros H; try reflexivity.
  discriminate H.
Qed.

(** An empty [potentialEarningsByMonth] array hides [costsByMonth]: the
    result is the sentinel whatever the other array holds. *)
Theorem empty_potentialEarnings_hides_costs (p : Person.t) (c : CostsByMonth.t) :
  Person.costsByMonth p = Some c ->
  CostsByMonth.potentialEarningsByMonth c = Some [] ->
  calculateNetEarningsPrevMonth dayjsPreviousMonth (Some p) = "- EUR".
Proof.
  intros Hc Hp.
  apply calculateNetEarningsPrevMonth_sentinel_iff. left.
  unfold earningsDataArray. cbn [chain]. rewrite Hc. cbn [chain].
  now rewrite Hp.
Qed.

(** With no financial data (no person, no [costsByMonth] object, or
    neither array in it) the result is the sentinel. *)
Theorem no_series_gives_sentinel (personData : option Person.t) :
  personData ?. Person.costsByMonth ?. CostsByMonth.potentialEarningsByMonth = None ->
  personData ?. Person.costsByMonth ?. CostsByMonth.costsByMonth = None ->
  calculateNetEarningsPrevMonth dayjsPreviousMonth personData = "- EUR".
Proof.
  intros H1 H2.
  apply calculateNetEarningsPrevMonth_sentinel_iff. left.
  unfold earningsDataArray. now rewrite H1, H2.
Qed.

End NetEarningsNaN.

Section NetEarningsEdgeWitnesses.

Lemma netEarnings_NaN_iff_witness :
  netEarningsPrevMonthOf
    (Some (samplePerson (Some "active") None [] nullCostsSeries (Some "800")))
  = "NaN EUR".
Proof.
  apply (proj2 (netEarnings_NaN_iff previousMonthLabel
                  (Some (samplePerson (Some "active") None [] nullCostsSeries
                           (Some "800")))
                  (entry "2024-06" "1200") "2024-06" eq_refl eq_refl eq_refl)).
  left. exists (entry "2024-05" "null"), "null".
  repeat split. discriminate.
Defined.

Lemma netEarnings_gap_witness :
  netEarningsPrevMonthOf
    (Some (samplePerson (Some "active") None [] gapSeries (Some "800")))
  = toFixed (sub zero (parseSafeFloat (Some "800"))) 2 ++ " EUR".
Proof.
  apply (proj1 (netEarnings_gap previousMonthLabel
                  (Some (samplePerson (Some "active") None [] gapSeries (Some "800")))
                  (entry "2024-06" "1200") "2024-06"
                  eq_refl eq_refl eq_refl eq_refl)).
Defined.

Lemma earningsPrevMonth_first_match_witness :
  earningsPrevMonth
    ([entry "2024-04" "900"]
       ++ {| month := Some "2024-05"; costs := None |}
       :: [entry "2024-05" "1000"; entry "2024-06" "1200"]) "2024-05"
  = zero.
Proof.
  apply (proj2 (earningsPrevMonth_first_match
                  [entry "2024-04" "900"]
                  [entry "2024-05" "1000"; entry "2024-06" "1200"]
                  {| month := Some "2024-05"; costs := None |} "2024-05"
                  eq_refl eq_refl)).
  reflexivity.
Defined.

Lemma empty_potentialEarnings_hides_costs_witness :
  netEarningsPrevMonthOf
    (Some (personWithCosts
             {| CostsByMonth.potentialEarningsByMonth := Some [];
                CostsByMonth.costsByMonth := Some exampleSeries |}))
  = "- EUR".
Proof.
  apply (empty_potentialEarnings_hides_costs previousMonthLabel
           (personWithCosts
              {| CostsByMonth.potentialEarningsByMonth := Some [];
                 CostsByMonth.costsByMonth := Some exampleSeries |})
           {| CostsByMonth.potentialEarningsByMonth := Some [];
              CostsByMonth.costsByMonth := Some exampleSeries |});
    reflexivity.
Defined.

Lemma no_series_gives_sentinel_witness :
  netEarningsPrevMonthOf None = "- EUR".
Proof.
  apply (no_series_gives_sentinel previousMonthLabel None); reflexivity.
Defined.

End NetEarningsEdgeWitnesses.

(** ** The table as a whole *)

Section Table.

Variable dayjsPreviousMonth : string -> string.

Lemma nonNull_app (A : Type) (l1 l2 : list (option A)) :
  nonNull (l1 ++ l2)%list = (nonNull l1 ++ nonNull l2)%list.
Proof.
  induction l1 as [| [a | ] l1 IH]; cbn; [reflexivity | | assumption].
  now rewrite IH.
Qed.

(** The rows of two batches of records are the rows of the first followed
    by the rows of the second: no row depends on another record. *)
Theorem tableData_app (src1 src2 : list SourceDataType) :
  tableData dayjsPreviousMonth (src1 ++ src2)%list
  = (tableData dayjsPreviousMonth src1 ++ tableData dayjsPreviousMonth src2)%list.
Proof.
  unfold tableData. now rewrite filter_app, map_app, nonNull_app.
Qed.

(** Records without a person and persons that are not active contribute
    nothing: dropping them beforehand gives the same table, and the table
    is empty exactly when every record is one of them. *)
Theorem tableData_ignores_unselected (sourceData : list SourceDataType) :
  tableData dayjsPreviousMonth (filter selected sourceData)
  = tableData dayjsPreviousMonth sourceData
  /\ (tableData dayjsPreviousMonth sourceData = []
      <-> forall dataRow, In dataRow sourceData -> selected dataRow = false).
Proof.
  rewrite !tableData_map_selected. split.
  - f_equal. induction sourceData as [| r l IH]; cbn; [reflexivity | ].
    destruct (selected r) eqn:Hr; cbn; [rewrite Hr; now f_equal | exact IH].
  - induction sourceData as [| r l IH]; cbn.
    + split; [intros _ ? [] | reflexivity].
    + destruct (selected r) eqn:Hr; cbn.
      * split; [discriminate | ].
        intros H. specialize (H r (or_introl eq_refl)). congruence.
      * rewrite IH. split.
        -- intros H x [<- | Hx]; auto.
        -- intros H x Hx. apply H. now right.
Qed.

(** The finished script keeps the selection and the names of the starter
    version: both tables list the same persons in the same order. *)
Theorem starter_lists_the_same_persons (sourceData : list SourceDataType) :
  map Starter.person (Starter.tableData sourceData)
  = map person (tableData dayjsPreviousMonth sourceData)
  /\ List.length (Starter.tableData sourceData)
     = List.length (tableData dayjsPreviousMonth sourceData).
Proof.
  assert (H : map Starter.person (Starter.tableData sourceData)
              = map person (tableData dayjsPreviousMonth sourceData)).
  { unfold Starter.tableData, tableData.
    induction sourceData as [| r l IH]; [reflexivity | ].
    cbn [filter]. unfold hasPerson at 1, personDataOf at 1.
    destruct (orElse (employees r) (externals r)) as [p | ] eqn:Hp;
      [ | exact IH].
    cbn [map nonNull].
    unfold Starter.tableRow at 1, tableRow at 1, personDataOf at 1, isActive at 1.
    rewrite Hp.
    destruct (negb _); cbn [nonNull map]; [exact IH | ].
    rewrite IH. unfold personDataOf. rewrite Hp. reflexivity. }
  split; [exact H | ].
  apply (f_equal (@List.length string)) in H.
  now rewrite !length_map in H.
Qed.

End Table.

Section MissingUtilisation.

Variable dayjsPreviousMonth : string -> string.

(** A person kept in the table who has no [workforceUtilisation] object
    shows ["N/A"] in all five percentage columns; one whose
    [lastThreeMonthsIndividually] is absent or empty shows it in the three
    month columns. *)
Theorem missing_utilisation_shows_NA
  (dataRow : SourceDataType) (row : TableDataType) :
  tableRow dayjsPreviousMonth dataRow = Some row ->
  (personDataOf dataRow ?. Person.workforceUtilisation = None ->
   past12Months row = "N/A" /\ y2d row = "N/A")
  /\ (lastThreeMonths (personDataOf dataRow) = [] ->
      june row = "N/A" /\ july row = "N/A" /\ august row = "N/A")
  /\ (personDataOf dataRow ?. Person.workforceUtilisation = None ->
      lastThreeMonths (personDataOf dataRow) = []).
Proof.
  intros Hrow. unfold tableRow in Hrow.
  destruct (negb _); [discriminate | ].
  injection Hrow as <-. cbn [past12Months y2d june july august buildRow].
  split; [ | split].
  - intros H. rewrite H. split; reflexivity.
  - intros H. rewrite H. repeat split.
  - intros H. unfold lastThreeMonths. now rewrite H.
Qed.

End MissingUtilisation.

Section MissingUtilisationWitness.

Lemma missing_utilisation_shows_NA_witness :
  past12Months
    (buildRow previousMonthLabel
       (Some {| Person.name := Some "Ada";
                Person.status := Some "active";
                Person.statusAggregation := None;
                Person.workforceUtilisation := None;
                Person.costsByMonth := None |})) = "N/A"
  /\ y2d
       (buildRow previousMonthLabel
          (Some {| Person.name := Some "Ada";
                   Person.status := Some "active";
                   Person.statusAggregation := None;
                   Person.workforceUtilisation := None;
                   Person.costsByMonth := None |})) = "N/A".
Proof.
  apply (proj1 (missing_utilisation_shows_NA previousMonthLabel
                  {| employees := None;
                     externals :=
                       Some {| Person.name := Some "Ada";
                               Person.status := Some "active";
                               Person.statusAggregation := None;
                               Person.workforceUtilisation := None;
                               Person.costsByMonth := None |} |}
                  _ eq_refl)).
  reflexivity.
Defined.

End MissingUtilisationWitness.

(** ** The percentage format in full *)

Section Mantissa.

Local Open Scope Z_scope.

Lemma digits2_pos_bound (p : positive) : Zpos p < 2 ^ Zpos (digits2_pos p).
Proof.
  induction p as [p IH | p IH | ]; cbn [digits2_pos];
    rewrite ?Pos2Z.inj_succ, ?Z.pow_succ_r by lia; lia.
Qed.

Lemma Zdigits2_bound (m : Z) : 0 <= m -> m < 2 ^ Zdigits2 m.
Proof.
  destruct m as [| p | p]; cbn [Zdigits2]; intros H;
    [reflexivity | apply digits2_pos_bound | lia].
Qed.

Lemma shr_1_halves (mrs : shr_record) :
  0 <= shr_m mrs ->
  0 <= shr_m (shr_1 mrs) /\ 2 * shr_m (shr_1 mrs) <= shr_m mrs.
Proof.
  destruct mrs as [m r s]. cbn [shr_m].
  destruct m as [| p | p]; [ | destruct p | lia]; cbn; lia.
Qed.

Lemma iter_shr_1_halves (p : positive) :
  forall mrs,
    0 <= shr_m mrs ->
    0 <= shr_m (iter_pos shr_1 p mrs)
    /\ 2 ^ Zpos p * shr_m (iter_pos shr_1 p mrs) <= shr_m mrs.
Proof.
  induction p as [p IH | p IH | ]; intros mrs Hm; cbn [iter_pos].
  - destruct (shr_1_halves mrs Hm) as [Ha Ha'].
    destruct (IH _ Ha) as [Hb Hb'].
    destruct (IH _ Hb) as [Hc Hc'].
    split; [assumption | ].
    assert (Hpow : 2 ^ Zpos p~1 = 2 * (2 ^ Zpos p * 2 ^ Zpos p)).
    { replace (Zpos p~1) with (Zpos p + Zpos p + 1) by lia.
      rewrite !Z.pow_add_r by lia. rewrite Z.pow_1_r. ring. }
    rewrite Hpow.
    assert (0 < 2 ^ Zpos p) by (apply Z.pow_pos_nonneg; lia).
    nia.
  - destruct (IH _ Hm) as [Hb Hb'].
    destruct (IH _ Hb) as [Hc Hc'].
    split; [assumption | ].
    assert (Hpow : 2 ^ Zpos p~0 = 2 ^ Zpos p * 2 ^ Zpos p).
    { replace (Zpos p~0) with (Zpos p + Zpos p) by lia.
      now rewrite Z.pow_add_r by lia. }
    rewrite Hpow.
    assert (0 < 2 ^ Zpos p) by (apply Z.pow_pos_nonneg; lia).
    nia.
  - rewrite Z.pow_1_r. now apply shr_1_halves.
Qed.

(** After the shift to the target exponent the mantissa has at most 53
    bits. *)
Lemma shr_fexp_bounded (m e : Z) (l : location) :
  0 <= m ->
  0 <= shr_m (fst (shr_fexp prec emax m e l)) < 2 ^ prec.
Proof.
  intros Hm. unfold shr_fexp, shr.
  assert (H0 : shr_m (shr_record_of_loc m l) = m)
    by (destruct l as [| []]; reflexivity).
  pose proof (Zdigits2_bound m Hm) as Hd.
  assert (Hdig : 0 <= Zdigits2 m)
    by (destruct m; cbn; lia).
  set (d := Zdigits2 m) in *.
  assert (Hfexp : d + e - prec <= fexp prec emax (d + e))
    by (unfold fexp; lia).
  destruct (fexp prec emax (d + e) - e) as [| p | p] eqn:Hn; cbn [fst].
  - rewrite H0. split; [assumption | ].
    apply Z.lt_le_trans with (1 := Hd).
    apply Z.pow_le_mono_r; lia.
  - destruct (iter_shr_1_halves p (shr_record_of_loc m l)) as [Hb Hb'];
      [rewrite H0; assumption | ].
    rewrite H0 in Hb'. split; [assumption | ].
    assert (Hpow : 2 ^ d <= 2 ^ Zpos p * 2 ^ prec).
    { rewrite <- Z.pow_add_r by (unfold prec; lia).
      apply Z.pow_le_mono_r; lia. }
    assert (0 < 2 ^ Zpos p) by (apply Z.pow_pos_nonneg; lia).
    nia.
  - rewrite H0. split; [assumption | ].
    apply Z.lt_le_trans with (1 := Hd).
    apply Z.pow_le_mono_r; lia.
Qed.

Lemma binary_round_aux_bounded (sx : bool) (mx ex : Z) (lx : location)
  (s : bool) (m : positive) (e : Z) :
  0 <= mx ->
  binary_round_aux prec emax sx mx ex lx = S754_finite s m e ->
  Zpos m < 2 ^ prec.
Proof.
  intros Hm. unfold binary_round_aux.
  pose proof (shr_fexp_bounded mx ex lx Hm) as H1.
  destruct (shr_fexp prec emax mx ex lx) as [mrs' e']. cbn [fst] in H1.
  pose proof (shr_fexp_bounded _ e' loc_Exact
                (round_nearest_even_nonneg _ (loc_of_shr_record mrs')
                   (proj1 H1))) as H2.
  destruct (shr_fexp prec emax _ e' loc_Exact) as [mrs'' e'']. cbn [fst] in H2.
  destruct (shr_m mrs'') as [| p | p]; [discriminate | | discriminate].
  destruct (e'' <=? emax - prec); [ | discriminate].
  intros H. injection H as _ <- _. apply H2.
Qed.

(** A finite product has a mantissa of at most 53 bits. *)
Lemma mul_bounded (x y : number) (s : bool) (m : positive) (e : Z) :
  mul x y = S754_finite s m e -> Zpos m < 2 ^ prec.
Proof.
  unfold mul.
  destruct x as [sx | sx | | sx mx ex]; destruct y as [sy | sy | | sy my ey];
    cbn [SFmul]; try discriminate.
  apply binary_round_aux_bounded. lia.
Qed.

(** From [10^21] on, a Number with such a mantissa is an integer. *)
Lemma geTenPow21_exponent (m : positive) (e : Z) :
  Zpos m < 2 ^ prec -> geTenPow21 m e = true -> 0 <= e.
Proof.
  intros Hm H. unfold geTenPow21 in H.
  destruct (Z.leb_spec 0 e) as [He | He]; [assumption | ].
  apply Z.leb_le in H.
  assert (0 < 2 ^ (- e)) by (apply Z.pow_pos_nonneg; lia).
  assert (2 ^ prec < 10 ^ 21) by (vm_compute; reflexivity).
  nia.
Qed.

Lemma shortestDecimal_nonneg (fuel : nat) (m : positive) (e : Z) :
  0 <= fst (shortestDecimal fuel m e).
Proof.
  assert (Hx : 0 <= Zpos m * 2 ^ e).
  { apply Z.mul_nonneg_nonneg; [lia | apply Z.pow_nonneg; lia]. }
  induction fuel as [| fuel IH]; [exact Hx | ].
  cbn [shortestDecimal].
  set (x := Zpos m * 2 ^ e) in *.
  set (q := 10 ^ Z.of_nat (S fuel)).
  assert (Hq : 0 < q) by (apply Z.pow_pos_nonneg; lia).
  assert (Hlo : 0 <= x / q * q / q)
    by (rewrite Z.div_mul by lia; apply Z.div_pos; lia).
  assert (Hhi : 0 <= (x / q * q + q) / q).
  { replace (x / q * q + q) with ((x / q + 1) * q) by ring.
    rewrite Z.div_mul by lia.
    assert (0 <= x / q) by (apply Z.div_pos; lia). lia. }
  repeat match goal with
         | |- context [if ?b then _ else _] => destruct b
         | |- context [match ?c with Eq => _ | Lt => _ | Gt => _ end] =>
             destruct c
         end; cbn [fst]; assumption.
Qed.

(** Above [10^21] the Number is written in exponential notation, with the
    digits that [shortestDecimal] chooses. *)
Lemma toStringLarge_exponentialNumeral (m : positive) (e : Z) :
  exists s p : Z,
    exponentialNumeral (toStringLarge m e) false s p
    /\ (0 <= e -> roundsTo m e (s * 10 ^ p) = true).
Proof.
  unfold toStringLarge.
  set (fuel := String.length (decimalString (Zpos m * 2 ^ e))).
  pose proof (shortestDecimal_nonneg fuel m e) as Hs.
  pose proof (shortestDecimal_roundsTo fuel m e) as Hr.
  destruct (shortestDecimal fuel m e) as [s p]. cbn [fst snd] in *.
  exists s, p. split; [ | exact Hr].
  destruct (decimalString_spec s Hs) as (Hall & Hlen & Hval & _).
  destruct (decimalString s) as [| c r] eqn:Hd; [cbn in Hlen; lia | ].
  exists c, r. split; [exact Hall | ]. split.
  - rewrite Hval. cbn. lia.
  - replace (Z.of_nat (String.length (String c r)) + p - 1)
      with (Z.of_nat (String.length r) + p)
      by (cbn [String.length]; lia).
    destruct r; reflexivity.
Qed.

End Mantissa.

Section PercentageCases.

Local Open Scope Z_scope.

(** The product of a Number that is not NaN and 100 is not NaN. *)
Lemma mul_100_not_NaN (x : number) :
  isNaN x = false -> isNaN (mul x (of_Z 100)) = false.
Proof.
  intros Hx. unfold mul.
  change (of_Z 100) with (S754_finite false 7036874417766400 (-46)).
  destruct x as [sx | sx | | sx mx ex]; cbn [SFmul]; try reflexivity;
    [discriminate | ].
  apply binary_round_aux_not_NaN. lia.
Qed.

(** C8, amended: [formatPercentage] returns ["N/A"] for [null] and
    [undefined], ["-"] for a string that does not parse as a floating-point
    number, and otherwise the parsed Number times 100, which is never NaN,
    written by [toFixed(0)] with ["%"] appended: for a finite product of
    magnitude below [10^21] that is the integer numeral of the product
    rounded to the nearest whole number (a tie going away from zero), e.g.
    ["0.8534"] gives ["85%"]; for an infinite product it is ["Infinity%"]
    or ["-Infinity%"]; and from [10^21] on it is the product in exponential
    notation, with digits that round to the product. *)
Theorem formatPercentage_cases :
  formatPercentage None = "N/A"
  /\ (forall v, isNaN (parseFloat v) = true -> formatPercentage (Some v) = "-")
  /\ (forall v, isNaN (parseFloat v) = false ->
        formatPercentage (Some v)
        = toFixed (mul (parseFloat v) (of_Z 100)) 0 ++ "%"
        /\ isNaN (mul (parseFloat v) (of_Z 100)) = false)
  /\ (forall v q,
        toQ (mul (parseFloat v) (of_Z 100)) = Some q ->
        belowTenPow21 (mul (parseFloat v) (of_Z 100)) = true ->
        exists (n : Z) (d : string),
          formatPercentage (Some v) = d ++ "%"
          /\ integerNumeral d (signBit (mul (parseFloat v) (of_Z 100))) n
          /\ roundsHalfUp n (Qabs q))
  /\ (forall v s,
        mul (parseFloat v) (of_Z 100) = S754_infinity s ->
        formatPercentage (Some v) = if s then "-Infinity%" else "Infinity%")
  /\ (forall v sg m e,
        mul (parseFloat v) (of_Z 100) = S754_finite sg m e ->
        geTenPow21 m e = true ->
        exists (d : string) (s p : Z),
          formatPercentage (Some v) = d ++ "%"
          /\ exponentialNumeral d sg s p
          /\ roundsTo m e (s * 10 ^ p) = true)
  /\ formatPercentage (Some "0.8534") = "85%".
Proof.
  assert (Hparsed : forall v x,
             mul (parseFloat v) (of_Z 100) = x -> isNaN x = false ->
             formatPercentage (Some v) = toFixed x 0 ++ "%").
  { intros v x Hx Hnan.
    assert (Hv : isNaN (parseFloat v) = false).
    { destruct (parseFloat v); try reflexivity.
      rewrite mul_NaN in Hx. subst x. discriminate. }
    unfold formatPercentage. now rewrite Hv, Hx. }
  split; [reflexivity | ].
  split; [intros v H; unfold formatPercentage; now rewrite H | ].
  split.
  { intros v H. split; [ | now apply mul_100_not_NaN].
    unfold formatPercentage. now rewrite H. }
  split.
  { intros v q Hq Hlt.
    destruct (toFixed_integerNumeral _ q Hq Hlt) as (n & Hround & Hnum).
    exists n, (toFixed (mul (parseFloat v) (of_Z 100)) 0).
    split; [ | auto].
    apply Hparsed; [reflexivity | ].
    now destruct (mul (parseFloat v) (of_Z 100)). }
  split.
  { intros v s Hs. rewrite (Hparsed v _ Hs eq_refl). now destruct s. }
  split; [ | vm_compute; reflexivity].
  intros v sg m e Hm Hge.
  pose proof (geTenPow21_exponent m e (mul_bounded _ _ sg m e Hm) Hge) as He.
  destruct (toStringLarge_exponentialNumeral m e)
    as (s & p & (c & r & Hall & Hval & Hstr) & Hround).
  exists ((if sg then "-" else "") ++ toStringLarge m e), s, p.
  split; [ | split].
  - rewrite (Hparsed v _ Hm eq_refl). cbn [toFixed]. now rewrite Hge.
  - exists c, r. split; [exact Hall | ]. split; [exact Hval | ].
    rewrite Hstr. reflexivity.
  - now apply Hround.
Qed.

(** C8 as stated fails: ["1e21"] parses, and the result ["1e+23%"] is not
    an integer numeral followed by ["%"]. *)
Lemma formatPercentage_exponential :
  isNaN (parseFloat "1e21") = false
  /\ formatPercentage (Some "1e21") = "1e+23%"
  /\ ~ (exists d neg n,
          formatPercentage (Some "1e21") = d ++ "%"
          /\ integerNumeral d neg n).
Proof.
  assert (Hres : formatPercentage (Some "1e21") = "1e+23%")
    by (vm_compute; reflexivity).
  split; [reflexivity | ].
  split; [exact Hres | ].
  intros (d & neg & n & Hd & d' & Heq & _ & Hall & _).
  rewrite Hres in Hd.
  apply (string_app_inv_tail "%" "1e+23" d) in Hd. subst d.
  destruct neg; cbn [append] in Heq; [discriminate Heq | ].
  subst d'. discriminate Hall.
Qed.

(** The cases of C8 at concrete inputs: a string that does not parse, an
    infinite product and a product of [10^23]. *)
Lemma formatPercentage_cases_witness :
  formatPercentage (Some "abc") = "-"
  /\ formatPercentage (Some "Infinity") = "Infinity%"
  /\ exists (d : string) (s p : Z),
       formatPercentage (Some "1e21") = d ++ "%"
       /\ exponentialNumeral d false s p
       /\ roundsTo 5960464477539062%positive 24 (s * 10 ^ p) = true.
Proof.
  destruct formatPercentage_cases as (_ & Hnan & _ & _ & Hinf & Hlarge & _).
  split; [apply Hnan; reflexivity | ].
  split; [apply (Hinf "Infinity" false); reflexivity | ].
  apply (Hlarge "1e21" false 5960464477539062%positive 24); vm_compute; reflexivity.
Defined.

End PercentageCases.
